(** * Triangle grid merge: the Tecplot reader, the zone merge and the writer

    A shallow embedding of [triangular_grid_merge/tecplot.py].  Python objects
    (Node, Face, Edge, Zone and the node lists shared between a zone and the
    reader) live in arenas indexed by handles, so that object identity and
    aliasing are explicit; the functions of the module are computations in a
    state-and-exception monad over that store, the grid and the file system. *)

From Stdlib Require Import Ascii String.
From stdpp Require Import gmap strings list pretty.

Open Scope string_scope.
Open Scope list_scope.
Open Scope Z_scope.

(** ** Python built-ins on strings and lists *)

(** The one-character strings that cannot be written inside a literal. *)
Definition nl : string := String (ascii_of_nat 10) EmptyString.
Definition dq : string := String (ascii_of_nat 34) EmptyString.

(** [s.split(c)] for a one-character separator. *)
Fixpoint py_split (sep : ascii) (s : string) : list string :=
  match s with
  | EmptyString => [EmptyString]
  | String c s' =>
      if Ascii.eqb c sep then EmptyString :: py_split sep s'
      else match py_split sep s' with
           | w :: ws => String c w :: ws
           | [] => [String c EmptyString]
           end
  end.

(** [l[:-1]]: everything but the last element. *)
Definition py_but_last {A} (l : list A) : list A := take (length l - 1)%nat l.

(** [file.readlines()]: the lines of a text, each with its terminator. *)
Fixpoint readlines (s : string) : list string :=
  match s with
  | EmptyString => []
  | String c s' =>
      if Ascii.eqb c (ascii_of_nat 10) then nl :: readlines s'
      else match readlines s' with
           | l :: ls => String c l :: ls
           | [] => [String c EmptyString]
           end
  end.

(** [s.find(sub)]: the first position of [sub] in [s], or -1. *)
Fixpoint find_from (sub s : string) (i : nat) : Z :=
  if String.prefix sub s then Z.of_nat i
  else match s with
       | EmptyString => -1
       | String _ s' => find_from sub s' (S i)
       end.

Definition py_find (s sub : string) : Z := find_from sub s 0.

(** A slice bound, as Python normalises it for a sequence of length [len]. *)
Definition py_bound (len : nat) (i : Z) : nat :=
  if i <? 0 then Z.to_nat (Z.max 0 (Z.of_nat len + i))
  else Nat.min (Z.to_nat i) len.

(** [l[i:j]]. *)
Definition py_slice {A} (l : list A) (i j : Z) : list A :=
  let a := py_bound (length l) i in
  let b := py_bound (length l) j in
  take (b - a)%nat (drop a l).

Fixpoint string_drop (n : nat) (s : string) : string :=
  match n, s with
  | O, _ => s
  | S n', String _ s' => string_drop n' s'
  | S _, EmptyString => EmptyString
  end.

(** [s[i:len(s)]]. *)
Definition py_str_from (s : string) (i : Z) : string :=
  string_drop (py_bound (String.length s) i) s.

(** [l[i]]: negative indices count from the end; [None] is IndexError. *)
Definition py_index {A} (l : list A) (i : Z) : option A :=
  if 0 <=? i then l !! Z.to_nat i
  else if - Z.of_nat (length l) <=? i then l !! Z.to_nat (Z.of_nat (length l) + i)
  else None.

(** [l.index(v)] on handles (objects compared by identity): the first
    position holding [v]; [None] is ValueError. *)
Fixpoint list_index (v : nat) (l : list nat) : option nat :=
  match l with
  | [] => None
  | w :: l' => if Nat.eqb w v then Some O else S <$> list_index v l'
  end.

(** [sep.join(l)]. *)
Fixpoint py_join (sep : string) (l : list string) : string :=
  match l with
  | [] => EmptyString
  | a :: l' => match l' with
               | [] => a
               | _ :: _ => a +:+ sep +:+ py_join sep l'
               end
  end.

(** [s.count(sub)] for a non-empty [sub]: the occurrences are counted from
    the left and do not overlap; [skip] is what is left of the occurrence
    just counted. *)
Fixpoint count_from (sub s : string) (skip : nat) : nat :=
  match s with
  | EmptyString => O
  | String _ s' =>
      match skip with
      | S k => count_from sub s' k
      | O => if String.prefix sub s
             then S (count_from sub s' (String.length sub - 1))
             else count_from sub s' O
      end
  end.

(** [s.count(sub)]; the empty string occurs between any two characters. *)
Definition py_count (s sub : string) : nat :=
  match sub with
  | EmptyString => S (String.length s)
  | String _ _ => count_from sub s O
  end.

(** [str(n)] of an integer. *)
Definition str_int (n : Z) : string := pretty n.

(** ** Decimal literals

    The instance of [int] and [float] used on concrete files: optional sign
    and decimal digits between optional blanks.  The development itself is
    parametric in the two conversions. *)

Definition is_blank (c : ascii) : bool :=
  Ascii.eqb c " " || Ascii.eqb c (ascii_of_nat 10) || Ascii.eqb c (ascii_of_nat 9)
  || Ascii.eqb c (ascii_of_nat 13).

Fixpoint lstrip (s : string) : string :=
  match s with
  | String c s' => if is_blank c then lstrip s' else s
  | EmptyString => EmptyString
  end.

Definition digit_of (c : ascii) : option Z :=
  let n := nat_of_ascii c in
  if (48 <=? n)%nat && (n <=? 57)%nat then Some (Z.of_nat (n - 48)) else None.

(** Digits read so far ([acc], [seen]), then only blanks up to the end. *)
Fixpoint dec_digits (s : string) (acc : Z) (seen : bool) : option Z :=
  match s with
  | EmptyString => if seen then Some acc else None
  | String c s' =>
      match digit_of c with
      | Some d => dec_digits s' (10 * acc + d) true
      | None => if seen && String.eqb (lstrip s) EmptyString then Some acc else None
      end
  end.

Definition dec_int (s : string) : option Z :=
  match lstrip s with
  | String "-" s' => Z.opp <$> dec_digits s' 0 false
  | String "+" s' => dec_digits s' 0 false
  | s' => dec_digits s' 0 false
  end.

(** ** Sample files

    A zone block as the writer lays it out: five header lines, the x line,
    the y line and one line per face. *)
Definition zone_block (name nodes elements xs ys : string) (faces : list string) : string :=
  "ZONE T = " +:+ dq +:+ name +:+ dq +:+ nl +:+
  "NODES = " +:+ nodes +:+ nl +:+
  "ELEMENTS = " +:+ elements +:+ nl +:+
  "DATAPACKING = BLOCK" +:+ nl +:+
  "ZONETYPE = FETRIANGLE" +:+ nl +:+
  xs +:+ nl +:+ ys +:+ nl +:+
  fold_right (fun l r => l +:+ nl +:+ r) "" faces.

Definition title_lines : string :=
  "TITLE = " +:+ dq +:+ "GRID" +:+ dq +:+ nl +:+
  "VARIABLES = " +:+ dq +:+ "X" +:+ dq +:+ ", " +:+ dq +:+ "Y" +:+ dq +:+ nl.

(** Zone A: nodes (0,0), (1,0), (0,1), face (1,2,3). *)
Definition zone_A : string := zone_block "ZONE 1" "3" "1" "0 1 0 " "0 0 1 " ["1 2 3 "].
(** Zone B: nodes (1,0), (0,1), (1,1), face (1,2,3). *)
Definition zone_B : string := zone_block "ZONE 2" "3" "1" "1 0 1 " "0 1 1 " ["1 2 3 "].

Definition two_zones : string := title_lines +:+ zone_A +:+ zone_B.

(** Zone A with a second face record naming a fourth node. *)
Definition index_too_large : string :=
  title_lines +:+ zone_block "ZONE 1" "3" "2" "0 1 0 " "0 0 1 " ["1 2 3 "; "1 2 4 "].

(** Zone A with the face record (0,1,2). *)
Definition index_zero : string :=
  title_lines +:+ zone_block "ZONE 1" "3" "1" "0 1 0 " "0 0 1 " ["0 1 2 "].

(** ** Exceptions and the object store *)

Inductive exn : Type :=
| IndexError
| ValueError
| FileNotFoundError
| AssertionError (msg : string)
| Exception (msg : string).

(** An object is named by its position in the arena of its class. *)
Abbreviation handle := nat.

Section Tecplot.

(** Coordinates are Python floats.  The module only converts them from text,
    compares them with [==] and [<], and prints them, so the float type and
    these four operations are parameters; so is [int] on strings.  [None]
    stands for ValueError. *)
Variable float : Type.
Variable float_eqb : float -> float -> bool.
Variable float_ltb : float -> float -> bool.
Variable py_float : string -> option float.
Variable str_float : float -> string.
Variable py_int : string -> option Z.

(** Modelled from the spec: the classes Node, Face, Edge, Zone and Grid
    (node.py, face.py, edge.py, zone.py and grid.py are not in the sources).
    The attributes [x], [y], [nodes_ids], [nodes], [Nodes], [Edges], [Faces]
    and [Zones] are the ones tecplot.py reads and writes; the incidence
    lists and the ids follow the data model of the spec (a node knows its
    incident edges and faces, an edge its two nodes and its faces, a face
    its three nodes and three edges). *)
Record Node := mkNode {
  node_x : float;
  node_y : float;
  node_edges : list handle;
  node_faces : list handle;
  node_id : option nat }.

Record Face := mkFace {
  face_nodes_ids : list Z;
  face_nodes : list handle;
  face_edges : list handle;
  face_id : option nat }.

Record Edge := mkEdge {
  edge_nodes : list handle;
  edge_faces : list handle;
  edge_id : option nat }.

(** [zone_Nodes] names a list object: the reader keeps a second reference to
    it and the merge rewrites it in place.  The face list of a zone is never
    mutated after it is built, so it is held by value. *)
Record Zone := mkZone {
  zone_Nodes : handle;
  zone_Faces : list handle }.

Record Grid := mkGrid {
  Nodes : list handle;
  Edges : list handle;
  Faces : list handle;
  Zones : list handle }.

(** The store: one arena per class, the arena of shared node lists, the grid
    handed to the functions, the file system, and the log of [open] calls
    (file name and mode). *)
Record state := mkState {
  nodeH : list Node;
  faceH : list Face;
  edgeH : list Edge;
  zoneH : list Zone;
  listH : list (list handle);
  grid : Grid;
  files : gmap string string;
  opened : list (string * string) }.

Definition upd_nodeH (f : list Node -> list Node) (s : state) : state :=
  mkState (f (nodeH s)) (faceH s) (edgeH s) (zoneH s) (listH s) (grid s) (files s) (opened s).
Definition upd_faceH (f : list Face -> list Face) (s : state) : state :=
  mkState (nodeH s) (f (faceH s)) (edgeH s) (zoneH s) (listH s) (grid s) (files s) (opened s).
Definition upd_edgeH (f : list Edge -> list Edge) (s : state) : state :=
  mkState (nodeH s) (faceH s) (f (edgeH s)) (zoneH s) (listH s) (grid s) (files s) (opened s).
Definition upd_zoneH (f : list Zone -> list Zone) (s : state) : state :=
  mkState (nodeH s) (faceH s) (edgeH s) (f (zoneH s)) (listH s) (grid s) (files s) (opened s).
Definition upd_listH (f : list (list handle) -> list (list handle)) (s : state) : state :=
  mkState (nodeH s) (faceH s) (edgeH s) (zoneH s) (f (listH s)) (grid s) (files s) (opened s).
Definition upd_grid (f : Grid -> Grid) (s : state) : state :=
  mkState (nodeH s) (faceH s) (edgeH s) (zoneH s) (listH s) (f (grid s)) (files s) (opened s).
Definition upd_files (f : gmap string string -> gmap string string) (s : state) : state :=
  mkState (nodeH s) (faceH s) (edgeH s) (zoneH s) (listH s) (grid s) (f (files s)) (opened s).
Definition log_open (name mode : string) (s : state) : state :=
  mkState (nodeH s) (faceH s) (edgeH s) (zoneH s) (listH s) (grid s) (files s)
          (opened s ++ [(name, mode)]).

Definition set_Nodes (l : list handle) (g : Grid) : Grid := mkGrid l (Edges g) (Faces g) (Zones g).
Definition set_Edges (l : list handle) (g : Grid) : Grid := mkGrid (Nodes g) l (Faces g) (Zones g).
Definition set_Faces (l : list handle) (g : Grid) : Grid := mkGrid (Nodes g) (Edges g) l (Zones g).
Definition set_Zones (l : list handle) (g : Grid) : Grid := mkGrid (Nodes g) (Edges g) (Faces g) l.

(** A new, empty [Grid()] over empty arenas and a given file system. *)
Definition init_state (fs : gmap string string) : state :=
  mkState [] [] [] [] [] (mkGrid [] [] [] []) fs [].

(** Attribute reads.  A handle produced by the module is always allocated;
    the defaults only make the reads total. *)
Definition edges_of (s : state) (n : handle) : list handle :=
  default [] (node_edges <$> nodeH s !! n).
Definition nodes_of_face (s : state) (f : handle) : list handle :=
  default [] (face_nodes <$> faceH s !! f).
Definition ids_of_face (s : state) (f : handle) : list Z :=
  default [] (face_nodes_ids <$> faceH s !! f).
Definition nodes_of_edge (s : state) (e : handle) : list handle :=
  default [] (edge_nodes <$> edgeH s !! e).
Definition list_at (s : state) (r : handle) : list handle :=
  default [] (listH s !! r).
Definition zone_nodes (s : state) (z : handle) : list handle :=
  default [] ((fun Z => list_at s (zone_Nodes Z)) <$> zoneH s !! z).
Definition zone_faces (s : state) (z : handle) : list handle :=
  default [] (zone_Faces <$> zoneH s !! z).

(** ** The monad: state threaded through, exceptions ending the run

    A raised exception keeps the state reached so far, as a Python exception
    keeps every mutation made before it. *)
Definition M (A : Type) : Type := state -> state * (exn + A).

Definition ret {A} (a : A) : M A := fun s => (s, inr a).
Definition raise {A} (e : exn) : M A := fun s => (s, inl e).
Definition bind {A B} (m : M A) (k : A -> M B) : M B :=
  fun s => match m s with
           | (s', inr a) => k a s'
           | (s', inl e) => (s', inl e)
           end.
Definition gets {A} (f : state -> A) : M A := fun s => (s, inr (f s)).
Definition modify (f : state -> state) : M unit := fun s => (f s, inr tt).
Definition or_raise {A} (e : exn) (o : option A) : M A :=
  match o with Some a => ret a | None => raise e end.

Notation "x <- m ;; k" := (bind m (fun x => k))
  (at level 100, m at next level, right associativity).
Notation "m ;; k" := (bind m (fun _ => k)) (at level 100, right associativity).

(** [for a in l: body(a)]. *)
Fixpoint for_each {A} (l : list A) (body : A -> M unit) : M unit :=
  match l with
  | [] => ret tt
  | a :: l' => body a ;; for_each l' body
  end.

(** Modelled from the spec: the constructors [Node()], [Face()], [Edge()]
    and [Zone()] of the absent classes.  A new object has no incident
    object and no id, a new zone owns a new empty node list, and the object
    goes to the end of its arena.  [new_node] is [Node()] followed by the
    two assignments [n.x = x] and [n.y = y]; [new_list] is [list()]. *)
Definition new_node (x y : float) : M handle :=
  fun s => (upd_nodeH (fun h => h ++ [mkNode x y [] [] None]) s, inr (length (nodeH s))).
Definition new_face : M handle :=
  fun s => (upd_faceH (fun h => h ++ [mkFace [] [] [] None]) s, inr (length (faceH s))).
Definition new_edge : M handle :=
  fun s => (upd_edgeH (fun h => h ++ [mkEdge [] [] None]) s, inr (length (edgeH s))).
Definition new_list : M handle :=
  fun s => (upd_listH (fun h => h ++ [[]]) s, inr (length (listH s))).
Definition new_zone : M handle :=
  r <- new_list ;;
  fun s => (upd_zoneH (fun h => h ++ [mkZone r []]) s, inr (length (zoneH s))).

(** [r.append(v)] on a shared node list. *)
Definition list_append (r : handle) (v : handle) : M unit :=
  modify (upd_listH (alter (fun l => l ++ [v]) r)).

(** ** The absent helpers of grid.py and node_algorithms.py *)

(** Modelled from the spec: [Grid.link_face_and_node(f, n)] (grid.py is not
    in the sources): the face gets the node as its next node and is
    registered as incident on the node. *)
Definition link_face_and_node (f n : handle) : M unit :=
  modify (fun s =>
    upd_nodeH (alter (fun N => mkNode (node_x N) (node_y N) (node_edges N)
                                      (node_faces N ++ [f]) (node_id N)) n)
      (upd_faceH (alter (fun F => mkFace (face_nodes_ids F) (face_nodes F ++ [n])
                                         (face_edges F) (face_id F)) f) s)).

(** Modelled from the spec: [grid.link_face_and_edge(f, e)]: the face is
    attached to the edge's face list and the edge is one of the face's. *)
Definition link_face_and_edge (f e : handle) : M unit :=
  modify (fun s =>
    upd_edgeH (alter (fun E => mkEdge (edge_nodes E) (edge_faces E ++ [f]) (edge_id E)) e)
      (upd_faceH (alter (fun F => mkFace (face_nodes_ids F) (face_nodes F)
                                         (face_edges F ++ [e]) (face_id F)) f) s)).

(** Modelled from the spec: [grid.link_node_and_edge(n, e)]: the edge is
    registered on the node and the node is an end of the edge. *)
Definition link_node_and_edge (n e : handle) : M unit :=
  modify (fun s =>
    upd_edgeH (alter (fun E => mkEdge (edge_nodes E ++ [n]) (edge_faces E) (edge_id E)) e)
      (upd_nodeH (alter (fun N => mkNode (node_x N) (node_y N) (node_edges N ++ [e])
                                         (node_faces N) (node_id N)) n) s)).

(** Modelled from the spec: [grid.is_edge_present(n1, n2)]: an edge already
    connecting the pair, found in the intersection of the two nodes'
    incident edges; [None] when there is none. *)
Definition is_edge_present (n1 n2 : handle) : M (option handle) :=
  gets (fun s => List.find (fun e => bool_decide (e ∈ edges_of s n2)) (edges_of s n1)).

(** Exact comparison of the coordinates of a candidate and a stored node. *)
Definition x_equal (s : state) (c m : handle) : bool :=
  match nodeH s !! c, nodeH s !! m with
  | Some C, Some N => float_eqb (node_x C) (node_x N)
  | _, _ => false
  end.
Definition y_equal (s : state) (c m : handle) : bool :=
  match nodeH s !! c, nodeH s !! m with
  | Some C, Some N => float_eqb (node_y C) (node_y N)
  | _, _ => false
  end.
Definition x_less (s : state) (m c : handle) : bool :=
  match nodeH s !! m, nodeH s !! c with
  | Some N, Some C => float_ltb (node_x N) (node_x C)
  | _, _ => false
  end.

(** Modelled from the spec: the [linear] strategy of the Node Matcher: the
    first canonical node, in store order, with both coordinates equal to the
    candidate's; on a miss the candidate is appended to the store. *)
Definition find_or_insert_linear (c : handle) : M handle :=
  fun s =>
    match List.find (fun m => x_equal s c m && y_equal s c m) (Nodes (grid s)) with
    | Some m => (s, inr m)
    | None => (upd_grid (fun g => set_Nodes (Nodes g ++ [c]) g) s, inr c)
    end.

(** Binary search of the x-sorted store for the leftmost position whose x
    is not below the candidate's.  The interval [lo, hi) halves at each
    step; the fuel is the length of the store. *)
Fixpoint lower_bound (fuel : nat) (s : state) (store : list handle) (c : handle)
    (lo hi : nat) : nat :=
  match fuel with
  | O => lo
  | S k =>
      if (lo <? hi)%nat then
        let mid := ((lo + hi) / 2)%nat in
        match store !! mid with
        | Some m => if x_less s m c then lower_bound k s store c (S mid) hi
                    else lower_bound k s store c lo mid
        | None => lo
        end
      else lo
  end.

(** Binary search for any position whose x equals the candidate's. *)
Fixpoint landing (fuel : nat) (s : state) (store : list handle) (c : handle)
    (lo hi : nat) : option nat :=
  match fuel with
  | O => None
  | S k =>
      if (lo <? hi)%nat then
        let mid := ((lo + hi) / 2)%nat in
        match store !! mid with
        | Some m => if x_equal s c m then Some mid
                    else if x_less s m c then landing k s store c (S mid) hi
                    else landing k s store c lo mid
        | None => None
        end
      else None
  end.

(** Scan of a run of the store while x stays equal to the candidate's: the
    first node whose y matches too. *)
Fixpoint scan_run (s : state) (c : handle) (run : list handle) : option handle :=
  match run with
  | [] => None
  | m :: rest =>
      if x_equal s c m then
        if y_equal s c m then Some m else scan_run s c rest
      else None
  end.

Definition insert_at (pos : nat) (c : handle) (store : list handle) : list handle :=
  take pos store ++ c :: drop pos store.

(** Modelled from the spec: the [sorted-one-sided] strategy: lower bound on
    x, scan to the right through the x-equal run, insertion at the lower
    bound on a miss. *)
Definition find_or_insert_1_sided (c : handle) : M handle :=
  fun s =>
    let store := Nodes (grid s) in
    let pos := lower_bound (S (length store)) s store c 0 (length store) in
    match scan_run s c (drop pos store) with
    | Some m => (s, inr m)
    | None => (upd_grid (set_Nodes (insert_at pos c store)) s, inr c)
    end.

(** Modelled from the spec: the [sorted-two-sided] strategy: binary search
    for a node of the x-equal run, scan to the left from it and then to the
    right; the tie-break the spec leaves open is fixed as left first.
    Insertion on a miss as for the one-sided strategy. *)
Definition find_or_insert_2_sided (c : handle) : M handle :=
  fun s =>
    let store := Nodes (grid s) in
    let hit :=
      match landing (S (length store)) s store c 0 (length store) with
      | Some p =>
          match scan_run s c (rev (take (S p) store)) with
          | Some m => Some m
          | None => scan_run s c (drop (S p) store)
          end
      | None => None
      end in
    match hit with
    | Some m => (s, inr m)
    | None =>
        let pos := lower_bound (S (length store)) s store c 0 (length store) in
        (upd_grid (set_Nodes (insert_at pos c store)) s, inr c)
    end.

(** Modelled from the spec: step 1 and step 3 of the Topology Builder, the
    common body of [n_square], [dichotomy_1_sided] and [dichotomy_2_sided]:
    each local node, in local order, is resolved through the matcher and the
    zone's list holds the canonical node at that position. *)
Fixpoint resolve_from (matcher : handle -> M handle) (nodes : handle) (i : nat)
    (l : list handle) : M unit :=
  match l with
  | [] => ret tt
  | c :: l' =>
      m <- matcher c ;;
      modify (upd_listH (alter (fun z => <[i := m]> z) nodes)) ;;
      resolve_from matcher nodes (S i) l'
  end.

Definition resolve_zone (matcher : handle -> M handle) (nodes : handle) : M unit :=
  l <- gets (fun s => list_at s nodes) ;;
  resolve_from matcher nodes 0 l.

Definition n_square (nodes : handle) : M unit := resolve_zone find_or_insert_linear nodes.
Definition dichotomy_1_sided (nodes : handle) : M unit := resolve_zone find_or_insert_1_sided nodes.
Definition dichotomy_2_sided (nodes : handle) : M unit := resolve_zone find_or_insert_2_sided nodes.

(** Modelled from the spec: [grid.init_ids()]: the pass that numbers the
    global node, edge and face sequences 1..N in their current order. *)
Fixpoint number_from {A} (set_id : nat -> A -> A) (i : nat) (l : list handle)
    (h : list A) : list A :=
  match l with
  | [] => h
  | o :: l' => number_from set_id (S i) l' (alter (set_id i) o h)
  end.

Definition init_ids : M unit :=
  modify (fun s =>
    let g := grid s in
    upd_nodeH (number_from (fun i N => mkNode (node_x N) (node_y N) (node_edges N)
                                              (node_faces N) (Some i)) 1 (Nodes g))
      (upd_edgeH (number_from (fun i E => mkEdge (edge_nodes E) (edge_faces E) (Some i))
                              1 (Edges g))
         (upd_faceH (number_from (fun i F => mkFace (face_nodes_ids F) (face_nodes F)
                                                    (face_edges F) (Some i)) 1 (Faces g))
            s))).

(** ** Files

    A file is its text.  Every [open] is logged; what is written through
    [f.write] is in the file as soon as it is written, as it is once the
    [with] block is left, by its end or by an exception. *)

(** [open(filename, 'r')] and the text of the file. *)
Definition open_r (filename : string) : M string :=
  modify (log_open filename "r") ;;
  c <- gets (fun s => files s !! filename) ;;
  or_raise FileNotFoundError c.

(** Mode ['w'] creates the file or empties it. *)
Definition open_w (filename : string) : M unit :=
  modify (fun s => upd_files (fun fs => <[filename := ""]> fs) (log_open filename "w" s)).

(** Mode ['a+'] creates the file when it is missing and keeps its content. *)
Definition open_a (filename : string) : M unit :=
  modify (fun s =>
    upd_files (fun fs => match fs !! filename with
                         | Some _ => fs
                         | None => <[filename := ""]> fs
                         end) (log_open filename "a+" s)).

(** [f.write(text)]. *)
Definition write (filename text : string) : M unit :=
  modify (upd_files (alter (fun c => c +:+ text) filename)).

(** ** tecplot.py: the writer *)

Definition print_tecplot_header (filename : string) : M unit :=
  open_w filename ;;
  write filename ("TITLE = " +:+ dq +:+ "GRID" +:+ dq +:+ nl) ;;
  write filename ("VARIABLES = " +:+ dq +:+ "X" +:+ dq +:+ ", " +:+ dq +:+ "Y" +:+ dq +:+ nl).

Definition print_zone_header (filename zone_name : string) (nodes faces : list handle)
    : M unit :=
  open_a filename ;;
  write filename ("ZONE T = " +:+ dq +:+ zone_name +:+ dq +:+ nl) ;;
  write filename ("NODES = " +:+ str_int (Z.of_nat (length nodes)) +:+ nl) ;;
  write filename ("ELEMENTS = " +:+ str_int (Z.of_nat (length faces)) +:+ nl) ;;
  write filename ("DATAPACKING = BLOCK" +:+ nl) ;;
  write filename ("ZONETYPE = FETRIANGLE" +:+ nl).

(** [f.write(str(node.x) + ' ')], and the same for [y]. *)
Definition write_coord (filename : string) (coord : Node -> float) (n : handle) : M unit :=
  N <- gets (fun s => nodeH s !! n) ;;
  match N with
  | Some N => write filename (str_float (coord N) +:+ " ")
  | None => ret tt
  end.

Definition print_variables (filename : string) (nodes : list handle) : M unit :=
  open_a filename ;;
  for_each nodes (write_coord filename node_x) ;;
  write filename nl ;;
  for_each nodes (write_coord filename node_y) ;;
  write filename nl.

Definition print_connectivity_list (filename : string) (nodes faces : list handle)
    : M unit :=
  open_a filename ;;
  for_each faces (fun face =>
    ns <- gets (fun s => nodes_of_face s face) ;;
    for_each ns (fun node =>
      i <- or_raise ValueError (list_index node nodes) ;;
      write filename (str_int (Z.of_nat i + 1) +:+ " ")) ;;
    write filename nl).

(** [for i, z in enumerate(grid.Zones)]. *)
Fixpoint print_zones_from (filename : string) (i : nat) (zs : list handle) : M unit :=
  match zs with
  | [] => ret tt
  | z :: zs' =>
      ns <- gets (fun s => zone_nodes s z) ;;
      fs <- gets (fun s => zone_faces s z) ;;
      print_zone_header filename ("ZONE " +:+ str_int (Z.of_nat i + 1)) ns fs ;;
      print_variables filename ns ;;
      print_connectivity_list filename ns fs ;;
      print_zones_from filename (S i) zs'
  end.

Definition print_zones (filename : string) : M unit :=
  zs <- gets (fun s => Zones (grid s)) ;;
  print_zones_from filename 0 zs.

(** The [assert] is the first statement; [grid.Nodes] and [grid.Faces] are
    the global sequences. *)
Definition print_merged_grid (filename : string) : M unit :=
  zs <- gets (fun s => Zones (grid s)) ;;
  (if (1 <? length zs)%nat then ret tt
   else raise (AssertionError (nl +:+ "Grid is not multizone." +:+ nl))) ;;
  ns <- gets (fun s => Nodes (grid s)) ;;
  fs <- gets (fun s => Faces (grid s)) ;;
  print_zone_header filename "ZONE 1" ns fs ;;
  print_variables filename ns ;;
  print_connectivity_list filename ns fs.

Definition print_tecplot (filename : string) (merge : bool) : M unit :=
  print_tecplot_header filename ;;
  if merge then print_merged_grid filename else print_zones filename.

(** ** tecplot.py: the reader *)

(** [' '.join(file).count('ZONE T')], on the lines of a file. *)
Definition number_of_zones (file : list string) : nat :=
  py_count (py_join " " file) "ZONE T".

(** [int(line[line.find('NODES =') + 7: len(line)])]. *)
Definition number_of_nodes (line : string) : M Z :=
  or_raise ValueError (py_int (py_str_from line (py_find line "NODES =" + 7))).

(** [int(line[line.find('ELEMENTS =') + 10: len(line)])]. *)
Definition number_of_faces (line : string) : M Z :=
  or_raise ValueError (py_int (py_str_from line (py_find line "ELEMENTS =" + 10))).

(** The tokens of a line: [line.split(' ')[:-1]]. *)
Definition tokens (line : string) : list string := py_but_last (py_split " " line).

(** [for x, y in zip(xs, ys)] over the two lazy [map(float, ...)]: a token is
    converted when [zip] asks for it, the x token first; the loop ends as
    soon as either line is exhausted. *)
Fixpoint zip_nodes (nodes : handle) (xs ys : list string) : M unit :=
  match xs with
  | [] => ret tt
  | tx :: xs' =>
      x <- or_raise ValueError (py_float tx) ;;
      match ys with
      | [] => ret tt
      | ty :: ys' =>
          y <- or_raise ValueError (py_float ty) ;;
          n <- new_node x y ;;
          list_append nodes n ;;
          zip_nodes nodes xs' ys'
      end
  end.

(** [list(map(int, ids))]. *)
Fixpoint map_int (ids : list string) : M (list Z) :=
  match ids with
  | [] => ret []
  | t :: ids' =>
      i <- or_raise ValueError (py_int t) ;;
      r <- map_int ids' ;;
      ret (i :: r)
  end.

(** [for line in lines[2:]]: a face per line, holding the indices of the
    line. *)
Fixpoint parce_faces (lines : list string) : M (list handle) :=
  match lines with
  | [] => ret []
  | line :: lines' =>
      f <- new_face ;;
      ids <- map_int (tokens line) ;;
      modify (upd_faceH (alter (fun F => mkFace ids (face_nodes F) (face_edges F)
                                                (face_id F)) f)) ;;
      fs <- parce_faces lines' ;;
      ret (f :: fs)
  end.

(** The two coordinate lines are indexed first (IndexError on a block of
    fewer than two lines); the result is the new node list, by reference,
    and the face list. *)
Definition parce_nodes_and_faces (lines : list string) : M (handle * list handle) :=
  l0 <- or_raise IndexError (py_index lines 0) ;;
  l1 <- or_raise IndexError (py_index lines 1) ;;
  nodes <- new_list ;;
  zip_nodes nodes (tokens l0) (tokens l1) ;;
  faces <- parce_faces (drop 2 lines) ;;
  ret (nodes, faces).

(** The repeated block of [set_faces]: the edge between two nodes of the
    face is looked up, and created and appended to [grid.Edges] when absent. *)
Definition attach_edge (f a b : handle) : M unit :=
  e <- is_edge_present a b ;;
  match e with
  | None =>
      e <- new_edge ;;
      link_face_and_edge f e ;;
      link_node_and_edge a e ;;
      link_node_and_edge b e ;;
      modify (upd_grid (fun g => set_Edges (Edges g ++ [e]) g))
  | Some e => link_face_and_edge f e
  end.

(** [nodes[f.nodes_ids[k] - 1]]. *)
Definition local_node (nodes f : handle) (k : Z) : M handle :=
  ids <- gets (fun s => ids_of_face s f) ;;
  i <- or_raise IndexError (py_index ids k) ;;
  l <- gets (fun s => list_at s nodes) ;;
  or_raise IndexError (py_index l (i - 1)).

(** The body of the loop of [set_faces]: the three nodes are looked up
    before anything is linked. *)
Definition set_face (nodes f : handle) : M unit :=
  n1 <- local_node nodes f 0 ;;
  n2 <- local_node nodes f 1 ;;
  n3 <- local_node nodes f 2 ;;
  link_face_and_node f n1 ;;
  link_face_and_node f n2 ;;
  link_face_and_node f n3 ;;
  attach_edge f n1 n2 ;;
  attach_edge f n2 n3 ;;
  attach_edge f n3 n1.

Definition set_faces (nodes : handle) (faces : list handle) : M unit :=
  for_each faces (set_face nodes).

(** Three [if], not [elif]: with another name nothing is done. *)
Definition set_nodes (nodes : list handle) (algorithm : string) : M unit :=
  for_each nodes (fun n =>
    (if String.eqb algorithm "n_square" then n_square n else ret tt) ;;
    (if String.eqb algorithm "dichotomy_1_sided" then dichotomy_1_sided n else ret tt) ;;
    (if String.eqb algorithm "dichotomy_2_sided" then dichotomy_2_sided n else ret tt)).

(** The first loop of [read_tecplot]: the face count and the index of the
    first coordinate line of every zone. *)
Fixpoint scan_elements (i : nat) (lines : list string) (faces_count indexes : list Z)
    : M (list Z * list Z) :=
  match lines with
  | [] => ret (faces_count, indexes)
  | line :: lines' =>
      if negb (py_find line "ELEMENTS =" =? -1) then
        f <- number_of_faces line ;;
        scan_elements (S i) lines' (faces_count ++ [f]) (indexes ++ [Z.of_nat i + 3])
      else scan_elements (S i) lines' faces_count indexes
  end.

(** The second loop: a zone per [ELEMENTS] line, parsed from its lines. *)
Fixpoint read_zones (lines : list string) (zs : list (Z * Z))
    (nodes : list handle) (faces : list (list handle))
    : M (list handle * list (list handle)) :=
  match zs with
  | [] => ret (nodes, faces)
  | (f, i) :: zs' =>
      z <- new_zone ;;
      modify (upd_grid (fun g => set_Zones (Zones g ++ [z]) g)) ;;
      p <- parce_nodes_and_faces (py_slice lines i (i + 2 + f)) ;;
      modify (upd_zoneH (alter (fun _ => mkZone (fst p) (snd p)) z)) ;;
      read_zones lines zs' (nodes ++ [fst p]) (faces ++ [snd p])
  end.

Definition known_algorithms : list string :=
  ["n_square"; "dichotomy_1_sided"; "dichotomy_2_sided"].

(** [nodes] and [faces] are the pair returned by the zone loop; an element
    of [nodes] is the list object that the zone names too, so that the
    rewriting done by [set_nodes] is what [set_faces] and the zone see. *)
Definition read_tecplot (filename algorithm : string) : M unit :=
  (if bool_decide (algorithm ∈ known_algorithms) then ret tt
   else raise (Exception "Wrong name for algorithm")) ;;
  text <- open_r filename ;;
  let lines := readlines text in
  fi <- scan_elements 0 lines [] [] ;;
  p <- read_zones lines (zip (fst fi) (snd fi)) [] [] ;;
  set_nodes (fst p) algorithm ;;
  for_each (zip (snd p) (fst p)) (fun fn =>
    set_faces (snd fn) (fst fn) ;;
    modify (upd_grid (fun g => set_Faces (Faces g ++ fst fn) g))) ;;
  init_ids.

(** ** Reasoning about computations

    [hoare P m Q]: from a state satisfying [P], the final state and the
    outcome of [m] (a value or an exception) satisfy [Q]. *)
Definition hoare {A} (P : state -> Prop) (m : M A) (Q : state -> exn + A -> Prop) : Prop :=
  forall s, P s -> Q (fst (m s)) (snd (m s)).

(** A postcondition that constrains the state only, whatever the outcome. *)
Definition keeps {A} (I : state -> Prop) (m : M A) : Prop :=
  hoare I m (fun s _ => I s).

(** The exceptions a computation may raise. *)
Definition raises {A} (E : exn -> Prop) (m : M A) : Prop :=
  hoare (fun _ => True) m (fun _ r => match r with inl e => E e | inr _ => True end).

(** ** The vocabulary of the statements *)

(** *** Exceptions and face records *)

(** Every exception but the generic [Exception]. *)
Definition builtin_error (e : exn) : Prop :=
  match e with Exception _ => False | _ => True end.

(** What [nodes[f.nodes_ids[k] - 1]] evaluates to; [None] is IndexError. *)
Definition local_node_of (s : state) (nodes f : handle) (k : Z) : option handle :=
  match py_index (ids_of_face s f) k with
  | Some i => py_index (list_at s nodes) (i - 1)
  | None => None
  end.

(** A record with fewer than three indices, or with one of its first three
    indices above the number of local nodes or so negative that it falls off
    the front of the list. *)
Definition bad_record (s : state) (nodes f : handle) : Prop :=
  (length (ids_of_face s f) < 3)%nat
  \/ exists (k : nat) (i : Z),
       (k < 3)%nat /\ ids_of_face s f !! k = Some i
       /\ (Z.of_nat (length (list_at s nodes)) < i \/ i <= - Z.of_nat (length (list_at s nodes))).

(** Invariants that every topology primitive of [set_faces] keeps. *)
Record link_stable (I : state -> Prop) : Prop := {
  stable_face_node : forall f n, keeps I (link_face_and_node f n);
  stable_face_edge : forall f e, keeps I (link_face_and_edge f e);
  stable_node_edge : forall n e, keeps I (link_node_and_edge n e);
  stable_new_edge : keeps I new_edge;
  stable_Edges : forall e, keeps I (modify (upd_grid (fun g => set_Edges (Edges g ++ [e]) g))) }.

(** The face records and the zones' node lists are not touched by the
    linking. *)
Definition same_records (s0 s : state) : Prop :=
  listH s = listH s0 /\ forall f, ids_of_face s f = ids_of_face s0 f.

(** A node as [parce_nodes_and_faces] creates it: no incident edge or face. *)
Definition unlinked_node (N : Node) : Prop := node_edges N = [] /\ node_faces N = [].

(** *** Text appended to a file *)

(** The text written by a sequence of [f.write] calls. *)
Definition join (l : list string) : string := foldr String.append "" l.

(** The state after appending [text] to a file. *)
Definition appended (filename text : string) (s : state) : state :=
  upd_files (alter (fun c => c +:+ text) filename) s.

(** The number of line ends in a text. *)
Fixpoint count_nl (s : string) : nat :=
  match s with
  | EmptyString => O
  | String c s' => ((if Ascii.eqb c (ascii_of_nat 10) then 1 else 0) + count_nl s')%nat
  end.

(** [p] is the first position of [v] in [l]. *)
Definition first_position (l : list handle) (v : handle) (p : nat) : Prop :=
  l !! p = Some v /\ forall q, (q < p)%nat -> l !! q <> Some v.

(** The text of one face: the 1-based positions, each followed by a blank,
    and the line end. *)
Definition position_text (ps : list nat) : string :=
  join (map (fun p => str_int (Z.of_nat p + 1) +:+ " ") ps).

(** The line of a face: the first positions of its nodes in [nodes], in the
    face's stored order, and one line end, at the end. *)
Definition face_line (s : state) (nodes : list handle) (face : handle) (line : string) : Prop :=
  count_nl line = 1%nat
  /\ exists ps, Forall2 (first_position nodes) (nodes_of_face s face) ps
                /\ line = position_text ps +:+ nl.

(** *** Which part of the state a phase of the reader can change *)

(** An invariant is free of a component when no update of that component
    affects it. *)
Definition free_nodeH (I : state -> Prop) : Prop := forall f s, I s -> I (upd_nodeH f s).
Definition free_faceH (I : state -> Prop) : Prop := forall f s, I s -> I (upd_faceH f s).
Definition free_edgeH (I : state -> Prop) : Prop := forall f s, I s -> I (upd_edgeH f s).
Definition free_listH (I : state -> Prop) : Prop := forall f s, I s -> I (upd_listH f s).
Definition free_Nodes (I : state -> Prop) : Prop :=
  forall l s, I s -> I (upd_grid (set_Nodes l) s).
Definition free_Edges (I : state -> Prop) : Prop :=
  forall l s, I s -> I (upd_grid (set_Edges l) s).

(** *** The zones of a file *)

(** What a face line becomes: a face holding the line's indices, not yet
    linked. *)
Definition face_of_line (line : string) (F : Face) : Prop :=
  mapM py_int (tokens line) = Some (face_nodes_ids F)
  /\ face_nodes F = [] /\ face_edges F = [].

(** The state after one turn of the zone loop of [read_tecplot]. *)
Definition zone_added (lines : list string) (fi : Z * Z) (s s3 : state)
    (r : handle) (fs : list handle) : Prop :=
  exists newn newf,
    Forall unlinked_node newn
    /\ Forall2 face_of_line (drop 2 (py_slice lines (snd fi) (snd fi + 2 + fst fi))) newf
    /\ r = S (length (listH s))
    /\ fs = seq (length (faceH s)) (length newf)
    /\ s3 = upd_zoneH (fun h => h ++ [mkZone r fs])
              (upd_grid (fun g => set_Zones (Zones g ++ [length (zoneH s)]) g)
                 (upd_faceH (fun h => h ++ newf)
                    (upd_listH (fun h => h ++ [[]; seq (length (nodeH s)) (length newn)])
                       (upd_nodeH (fun h => h ++ newn) s)))).

(** The faces of a zone are, in order, the faces of its face lines. *)
Definition zone_of_lines (s : state) (lines : list string) (z : handle) (fi : Z * Z) : Prop :=
  Forall2 (fun fh line => mapM py_int (tokens line) = Some (ids_of_face s fh))
          (zone_faces s z)
          (drop 2 (py_slice lines (snd fi) (snd fi + 2 + fst fi))).

(** The zones and the global face sequence, which only [read_tecplot]
    itself extends. *)
Definition same_zones (s0 s : state) : Prop :=
  zoneH s = zoneH s0 /\ Zones (grid s) = Zones (grid s0) /\ Faces (grid s) = Faces (grid s0).

(** *** Node matchers *)

(** The candidate and the stored node compare equal in both coordinates. *)
Definition same_xy (s : state) (c m : handle) : bool := x_equal s c m && y_equal s c m.

(** The coordinates of the canonical nodes, in store order. *)
Definition canonical_xy (s : state) : list (float * float) :=
  omap (fun n => (fun N => (node_x N, node_y N)) <$> nodeH s !! n) (Nodes (grid s)).

(** What a matcher may do: return a stored node equal to the candidate and
    change nothing, or put the candidate somewhere in the store and return
    it. *)
Definition find_or_insert_ok (matcher : handle -> M handle) : Prop :=
  forall c s,
    (exists m, matcher c s = (s, inr m) /\ m ∈ Nodes (grid s) /\ same_xy s c m = true)
    \/ (exists l, matcher c s = (upd_grid (set_Nodes l) s, inr c) /\ l ≡ₚ c :: Nodes (grid s)).

(** *** Topology *)

(** The faces attached to an edge. *)
Definition faces_of_edge (s : state) (e : handle) : list handle :=
  default [] (edge_faces <$> edgeH s !! e).

(** The edge [e] has the two ends [a] and [b], in either order. *)
Definition connects (s : state) (e a b : handle) : Prop :=
  nodes_of_edge s e = [a; b] \/ nodes_of_edge s e = [b; a].

#[global] Instance connects_dec s e a b : Decision (connects s e a b).
Proof. unfold connects. apply _. Defined.

(** The face [f] is attached to an edge of the grid between [a] and [b]
    (nothing is asked of a pair of equal nodes). *)
Definition joined (s : state) (f a b : handle) : Prop :=
  a = b \/ exists e, (e < length (edgeH s))%nat /\ connects s e a b /\ f ∈ faces_of_edge s e.

(** A face is either not linked yet or has three nodes, pairwise joined. *)
Definition face_ok (s : state) (f : handle) : Prop :=
  nodes_of_face s f = []
  \/ exists a b c, nodes_of_face s f = [a; b; c]
                   /\ joined s f a b /\ joined s f b c /\ joined s f c a.

(** The edges of the grid: [grid.Edges] lists every edge object once; an
    edge has two ends and is registered on both; an edge registered on a
    node has it as an end; no two edges have the same ends.  The node lists
    of the zones and the canonical store hold allocated nodes. *)
Record edges_ok (s : state) : Prop := {
  ok_Edges : Edges (grid s) = seq 0 (length (edgeH s));
  ok_ends : forall e, (e < length (edgeH s))%nat ->
            exists a b, nodes_of_edge s e = [a; b] /\ e ∈ edges_of s a /\ e ∈ edges_of s b;
  ok_incident : forall n e, e ∈ edges_of s n -> n ∈ nodes_of_edge s e;
  ok_unique : forall e1 e2 a b, connects s e1 a b -> connects s e2 a b -> e1 = e2;
  ok_lists : forall r n, n ∈ list_at s r -> (n < length (nodeH s))%nat;
  ok_store : forall n, n ∈ Nodes (grid s) -> (n < length (nodeH s))%nat }.

(** The invariant of a merged grid. *)
Definition topology_ok (s : state) : Prop := edges_ok s /\ forall f, face_ok s f.

(** Two states with the same incidence relations and the same edges. *)
Record same_links (s t : state) : Prop := {
  sl_edges_of : forall n, edges_of t n = edges_of s n;
  sl_nodes_of_edge : forall e, nodes_of_edge t e = nodes_of_edge s e;
  sl_faces_of_edge : forall e, faces_of_edge t e = faces_of_edge s e;
  sl_nodes_of_face : forall f, nodes_of_face t f = nodes_of_face s f;
  sl_Edges : Edges (grid t) = Edges (grid s);
  sl_edgeH : length (edgeH t) = length (edgeH s) }.

(** The state after [attach_edge] has created an edge. *)
Definition add_edge (f a b : handle) (s : state) : state :=
  let e := length (edgeH s) in
  upd_grid (fun g => set_Edges (Edges g ++ [e]) g)
    (fst (link_node_and_edge b e
       (fst (link_node_and_edge a e
          (fst (link_face_and_edge f e (fst (new_edge s)))))))).

(** The state after the six linking steps of [set_face]. *)
Definition face_linked (f n1 n2 n3 : handle) (s : state) : state :=
  fst (attach_edge f n3 n1
    (fst (attach_edge f n2 n3
      (fst (attach_edge f n1 n2
        (fst (link_face_and_node f n3
          (fst (link_face_and_node f n2
            (fst (link_face_and_node f n1 s))))))))))).

(** The states reached from a new [Grid()] by completed [read_tecplot]
    calls, over the files [fs]. *)
Inductive merged (fs : gmap string string) : state -> Prop :=
| merged_new : merged fs (init_state fs)
| merged_read s filename algorithm s' :
    merged fs s -> read_tecplot filename algorithm s = (s', inr tt) -> merged fs s'.

(** ** Running a computation *)

Lemma bind_run {A B} (m : M A) (k : A -> M B) s :
  bind m k s = match snd (m s) with
               | inr a => k a (fst (m s))
               | inl e => (fst (m s), inl e)
               end.
Proof. unfold bind. destruct (m s) as [s' [e|a]]; reflexivity. Qed.

Lemma state_eq (s t : state) :
  nodeH s = nodeH t -> faceH s = faceH t -> edgeH s = edgeH t -> zoneH s = zoneH t ->
  listH s = listH t -> grid s = grid t -> files s = files t -> opened s = opened t ->
  s = t.
Proof. destruct s, t; simpl; intros; subst; reflexivity. Qed.

Lemma bind_inr {A B} (m : M A) (k : A -> M B) s s' b :
  bind m k s = (s', inr b) ->
  exists s1 a, m s = (s1, inr a) /\ k a s1 = (s', inr b).
Proof.
  unfold bind. destruct (m s) as [s1 [e|a]]; intros H; [discriminate | eauto].
Qed.

Lemma hoare_bind {A B} (P : state -> Prop) (m : M A) (k : A -> M B)
    (R : state -> exn + A -> Prop) (Q : state -> exn + B -> Prop) :
  hoare P m R ->
  (forall s e, R s (inl e) -> Q s (inl e)) ->
  (forall a, hoare (fun s => R s (inr a)) (k a) Q) ->
  hoare P (bind m k) Q.
Proof.
  intros Hm He Hk s HP. specialize (Hm s HP). rewrite bind_run.
  destruct (snd (m s)) as [e|a]; simpl; [apply He, Hm | apply Hk, Hm].
Qed.

Lemma keeps_bind {A B} (I : state -> Prop) (m : M A) (k : A -> M B) :
  keeps I m -> (forall a, keeps I (k a)) -> keeps I (bind m k).
Proof.
  intros Hm Hk. apply hoare_bind with (R := fun s _ => I s); auto.
Qed.

Lemma keeps_ret {A} (I : state -> Prop) (a : A) : keeps I (ret a).
Proof. intros s H; exact H. Qed.

Lemma keeps_raise {A} (I : state -> Prop) e : keeps I (@raise A e).
Proof. intros s H; exact H. Qed.

Lemma keeps_gets {A} (I : state -> Prop) (f : state -> A) : keeps I (gets f).
Proof. intros s H; exact H. Qed.

Lemma keeps_or_raise {A} (I : state -> Prop) e (o : option A) : keeps I (or_raise e o).
Proof. destruct o; [apply keeps_ret | apply keeps_raise]. Qed.

Lemma keeps_modify (I : state -> Prop) (f : state -> state) :
  (forall s, I s -> I (f s)) -> keeps I (modify f).
Proof. intros H s Hs. apply H, Hs. Qed.

Lemma keeps_if {A} (I : state -> Prop) (b : bool) (m1 m2 : M A) :
  keeps I m1 -> keeps I m2 -> keeps I (if b then m1 else m2).
Proof. destruct b; auto. Qed.

Lemma keeps_for_each {A} (I : state -> Prop) (l : list A) (body : A -> M unit) :
  (forall a, a ∈ l -> keeps I (body a)) -> keeps I (for_each l body).
Proof.
  induction l as [|a l IH]; intros H; simpl.
  - apply keeps_ret.
  - apply keeps_bind; [apply H; left | intros _; apply IH; intros b Hb; apply H; right; exact Hb].
Qed.

Lemma raises_bind {A B} (E : exn -> Prop) (m : M A) (k : A -> M B) :
  raises E m -> (forall a, raises E (k a)) -> raises E (bind m k).
Proof.
  intros Hm Hk s _. rewrite bind_run. specialize (Hm s I).
  destruct (snd (m s)) as [e|a]; simpl in *; [exact Hm | apply (Hk a _ I)].
Qed.

Lemma raises_total {A} (E : exn -> Prop) (m : M A) :
  (forall s, exists a, snd (m s) = inr a) -> raises E m.
Proof. intros H s _. destruct (H s) as [a ->]. exact I. Qed.

Lemma raises_or_raise {A} (E : exn -> Prop) e (o : option A) :
  E e -> raises E (or_raise e o).
Proof. intros He s _. destruct o; simpl; auto. Qed.

Lemma raises_if {A} (E : exn -> Prop) (b : bool) (m1 m2 : M A) :
  raises E m1 -> raises E m2 -> raises E (if b then m1 else m2).
Proof. destruct b; auto. Qed.

Lemma raises_for_each {A} (E : exn -> Prop) (l : list A) (body : A -> M unit) :
  (forall a, raises E (body a)) -> raises E (for_each l body).
Proof.
  intros H. induction l as [|a l IH]; simpl.
  - apply raises_total; intros s; exists tt; reflexivity.
  - apply raises_bind; auto.
Qed.

(** ** The exceptions of the reader *)

Ltac total := apply raises_total; intros ?; eexists; reflexivity.

Ltac raises_step :=
  first
    [ apply raises_bind; [| intros ?]
    | apply raises_or_raise; exact I
    | apply raises_if
    | apply raises_for_each; intros ?
    | total ].

Lemma raises_open_r filename : raises builtin_error (open_r filename).
Proof. unfold open_r. repeat raises_step. Qed.

Lemma raises_scan_elements lines : forall i fc ix,
  raises builtin_error (scan_elements i lines fc ix).
Proof.
  induction lines as [|line lines IH]; intros i fc ix; simpl.
  - total.
  - apply raises_if; [| apply IH].
    apply raises_bind; [unfold number_of_faces; raises_step | intros f; apply IH].
Qed.

Lemma raises_zip_nodes nodes xs : forall ys,
  raises builtin_error (zip_nodes nodes xs ys).
Proof.
  induction xs as [|tx xs IH]; intros ys; simpl; [total|].
  apply raises_bind; [raises_step | intros x].
  destruct ys as [|ty ys]; [total|].
  repeat (apply raises_bind; [raises_step | intros ?]). apply IH.
Qed.

Lemma raises_map_int ids : raises builtin_error (map_int ids).
Proof.
  induction ids as [|t ids IH]; simpl; [total|].
  apply raises_bind; [raises_step | intros i].
  apply raises_bind; [exact IH | intros r; total].
Qed.

Lemma raises_parce_faces lines : raises builtin_error (parce_faces lines).
Proof.
  induction lines as [|line lines IH]; simpl; [total|].
  apply raises_bind; [total | intros f].
  apply raises_bind; [apply raises_map_int | intros ids].
  apply raises_bind; [total | intros _].
  apply raises_bind; [exact IH | intros fs; total].
Qed.

Lemma raises_parce_nodes_and_faces lines :
  raises builtin_error (parce_nodes_and_faces lines).
Proof.
  unfold parce_nodes_and_faces.
  do 3 (apply raises_bind; [raises_step | intros ?]).
  apply raises_bind; [apply raises_zip_nodes | intros _].
  apply raises_bind; [apply raises_parce_faces | intros ?; total].
Qed.

Lemma raises_read_zones lines zs : forall nodes faces,
  raises builtin_error (read_zones lines zs nodes faces).
Proof.
  induction zs as [|[f i] zs IH]; intros nodes faces; simpl; [total|].
  apply raises_bind; [total | intros z].
  apply raises_bind; [total | intros _].
  apply raises_bind; [apply raises_parce_nodes_and_faces | intros p].
  apply raises_bind; [total | intros _]. apply IH.
Qed.

Lemma matcher_total (matcher : handle -> M handle) :
  (forall c s, exists m, snd (matcher c s) = inr m) ->
  forall nodes l i s, exists u, snd (resolve_from matcher nodes i l s) = inr u.
Proof.
  intros Hm nodes l. induction l as [|c l IH]; intros i s; simpl.
  - exists tt; reflexivity.
  - rewrite bind_run. destruct (Hm c s) as [m ->].
    rewrite bind_run. simpl. apply IH.
Qed.

Lemma linear_total c s : exists m, snd (find_or_insert_linear c s) = inr m.
Proof. unfold find_or_insert_linear. destruct (List.find _ _); eexists; reflexivity. Qed.

Lemma one_sided_total c s : exists m, snd (find_or_insert_1_sided c s) = inr m.
Proof. unfold find_or_insert_1_sided. simpl. destruct (scan_run _ _ _); eexists; reflexivity. Qed.

Lemma two_sided_total c s : exists m, snd (find_or_insert_2_sided c s) = inr m.
Proof.
  unfold find_or_insert_2_sided. simpl.
  match goal with |- context [match ?h with Some _ => _ | None => _ end] =>
    destruct h end; eexists; reflexivity.
Qed.

Lemma resolve_zone_total (matcher : handle -> M handle) nodes :
  (forall c s, exists m, snd (matcher c s) = inr m) ->
  forall s, exists u, snd (resolve_zone matcher nodes s) = inr u.
Proof.
  intros Hm s. unfold resolve_zone. rewrite bind_run. simpl.
  apply matcher_total, Hm.
Qed.

Lemma raises_set_nodes E nodes algorithm : raises E (set_nodes nodes algorithm).
Proof.
  unfold set_nodes. apply raises_for_each; intros n.
  repeat (apply raises_bind; [| intros _]);
    (apply raises_if; [| total]); apply raises_total;
    apply resolve_zone_total;
    [apply linear_total | apply one_sided_total | apply two_sided_total].
Qed.

Lemma attach_edge_total f a b s : snd (attach_edge f a b s) = inr tt.
Proof.
  unfold attach_edge. rewrite bind_run. simpl.
  destruct (List.find _ _); reflexivity.
Qed.

Lemma raises_local_node (E : exn -> Prop) nodes f k :
  E IndexError -> raises E (local_node nodes f k).
Proof.
  intros HE. unfold local_node.
  apply raises_bind; [total | intros ids].
  apply raises_bind; [apply raises_or_raise, HE | intros i].
  apply raises_bind; [total | intros l].
  apply raises_or_raise, HE.
Qed.

Lemma raises_set_faces nodes faces : raises builtin_error (set_faces nodes faces).
Proof.
  unfold set_faces, set_face. apply raises_for_each; intros f.
  do 3 (apply raises_bind; [apply raises_local_node; exact I | intros ?]).
  do 3 (apply raises_bind; [total | intros _]).
  do 2 (apply raises_bind;
        [apply raises_total; intros s; exists tt; apply attach_edge_total | intros _]).
  apply raises_total; intros s; exists tt; apply attach_edge_total.
Qed.

(** C7. An algorithm name outside the three known ones makes [read_tecplot]
    raise [Exception('Wrong name for algorithm')] at once: the state is the
    one of the call, so the grid is untouched and no file has been opened.
    With one of the three names, whatever else happens, that exception is
    not raised. *)
Theorem unknown_algorithm_rejected (filename algorithm : string) (s : state) :
  (algorithm ∉ known_algorithms ->
   read_tecplot filename algorithm s = (s, inl (Exception "Wrong name for algorithm")))
  /\ (algorithm ∈ known_algorithms ->
      forall msg, snd (read_tecplot filename algorithm s) <> inl (Exception msg)).
Proof.
  split; intros Halg.
  - unfold read_tecplot. rewrite bind_run.
    rewrite bool_decide_eq_false_2 by exact Halg. reflexivity.
  - assert (Hr : raises builtin_error (read_tecplot filename algorithm)).
    { unfold read_tecplot. rewrite bool_decide_eq_true_2 by exact Halg.
      apply raises_bind; [total | intros _].
      apply raises_bind; [apply raises_open_r | intros text].
      apply raises_bind; [apply raises_scan_elements | intros fi].
      apply raises_bind; [apply raises_read_zones | intros p].
      apply raises_bind; [apply raises_set_nodes | intros _].
      apply raises_bind; [| intros _; total].
      apply raises_for_each; intros fn.
      apply raises_bind; [apply raises_set_faces | intros _; total]. }
    intros msg Hsnd. specialize (Hr s I). simpl in Hr. rewrite Hsnd in Hr. exact Hr.
Qed.

(** ** The writer on a grid that is not multizone *)

(** C6. With fewer than two zones, [print_tecplot] with [merge=True] ends in
    the assertion error of [print_merged_grid]; by then [print_tecplot_header]
    has opened the file in write mode and written the two title lines, which
    are all the file holds afterwards.  No zone header, coordinate or
    connectivity line is written and the rest of the state is as before. *)
Theorem merged_output_needs_two_zones (filename : string) (s : state) :
  (length (Zones (grid s)) < 2)%nat ->
  print_tecplot filename true s =
    (upd_files (fun fs => <[filename := title_lines]> fs) (log_open filename "w" s),
     inl (AssertionError (nl +:+ "Grid is not multizone." +:+ nl))).
Proof.
  intros Hz. unfold print_tecplot, print_tecplot_header, print_merged_grid.
  rewrite !bind_run. simpl.
  replace (1 <? length (Zones (grid s)))%nat with false
    by (symmetry; apply Nat.ltb_ge; lia).
  simpl. unfold upd_files, log_open. simpl. f_equal. f_equal.
  rewrite !alter_insert_eq. reflexivity.
Qed.

(** ** Face records that cannot be resolved *)

Lemma py_index_nat {A} (l : list A) (k : nat) : py_index l (Z.of_nat k) = l !! k.
Proof.
  unfold py_index. destruct (0 <=? Z.of_nat k) eqn:E; [| apply Z.leb_gt in E; lia].
  rewrite Nat2Z.id. reflexivity.
Qed.

Lemma py_index_None {A} (l : list A) (i : Z) :
  Z.of_nat (length l) <= i \/ i < - Z.of_nat (length l) -> py_index l i = None.
Proof.
  intros H. unfold py_index. destruct (0 <=? i) eqn:E.
  - apply Z.leb_le in E. apply lookup_ge_None_2. lia.
  - apply Z.leb_gt in E. destruct (- Z.of_nat (length l) <=? i) eqn:E'; [| reflexivity].
    apply Z.leb_le in E'. lia.
Qed.

Lemma local_node_run nodes f k s :
  local_node nodes f k s =
    (s, match local_node_of s nodes f k with Some n => inr n | None => inl IndexError end).
Proof.
  unfold local_node, local_node_of. rewrite bind_run. simpl.
  destruct (py_index (ids_of_face s f) k) as [i|]; simpl; [| reflexivity].
  rewrite bind_run. simpl. rewrite bind_run. simpl.
  destruct (py_index (list_at s nodes) (i - 1)); reflexivity.
Qed.

Lemma bad_record_unresolved s nodes f :
  bad_record s nodes f ->
  exists k : nat, (k < 3)%nat /\ local_node_of s nodes f (Z.of_nat k) = None.
Proof.
  intros [Hlen | (k & i & Hk & Hi & Hout)].
  - exists 2%nat. split; [lia |]. unfold local_node_of. rewrite py_index_nat.
    rewrite lookup_ge_None_2 by lia. reflexivity.
  - exists k. split; [exact Hk |]. unfold local_node_of. rewrite py_index_nat, Hi.
    apply py_index_None. lia.
Qed.

Lemma set_face_unresolved nodes f s (k : nat) :
  (k < 3)%nat -> local_node_of s nodes f (Z.of_nat k) = None ->
  set_face nodes f s = (s, inl IndexError).
Proof.
  intros Hk Hnone. unfold set_face.
  rewrite bind_run, (local_node_run nodes f 0). simpl.
  destruct (local_node_of s nodes f 0) as [n1|] eqn:E1; simpl; [| reflexivity].
  rewrite bind_run, (local_node_run nodes f 1). simpl.
  destruct (local_node_of s nodes f 1) as [n2|] eqn:E2; simpl; [| reflexivity].
  rewrite bind_run, (local_node_run nodes f 2). simpl.
  destruct (local_node_of s nodes f 2) as [n3|] eqn:E3; simpl; [| reflexivity].
  exfalso.
  assert (Hk' : Z.of_nat k = 0 \/ Z.of_nat k = 1 \/ Z.of_nat k = 2) by lia.
  destruct Hk' as [Hz|[Hz|Hz]]; rewrite Hz in Hnone; congruence.
Qed.

Lemma keeps_attach_edge (I : state -> Prop) f a b :
  link_stable I -> keeps I (attach_edge f a b).
Proof.
  intros [Hfn Hfe Hne Hnew HE]. unfold attach_edge.
  apply keeps_bind; [apply keeps_gets | intros [e|]].
  - apply Hfe.
  - apply keeps_bind; [apply Hnew | intros e].
    repeat (apply keeps_bind; [auto | intros _]). apply HE.
Qed.

Lemma keeps_local_node (I : state -> Prop) nodes f k : keeps I (local_node nodes f k).
Proof.
  unfold local_node.
  apply keeps_bind; [apply keeps_gets | intros ?].
  apply keeps_bind; [apply keeps_or_raise | intros ?].
  apply keeps_bind; [apply keeps_gets | intros ?].
  apply keeps_or_raise.
Qed.

Lemma keeps_set_face (I : state -> Prop) nodes f :
  link_stable I -> keeps I (set_face nodes f).
Proof.
  intros HI. unfold set_face.
  do 3 (apply keeps_bind; [apply keeps_local_node | intros ?]).
  do 3 (apply keeps_bind; [apply HI | intros _]).
  do 2 (apply keeps_bind; [apply keeps_attach_edge; exact HI | intros _]).
  apply keeps_attach_edge; exact HI.
Qed.

Lemma keeps_set_faces (I : state -> Prop) nodes faces :
  link_stable I -> keeps I (set_faces nodes faces).
Proof. intros HI. apply keeps_for_each; intros f _. apply keeps_set_face, HI. Qed.

Lemma ids_of_face_alter (g : Face -> Face) f s :
  (forall F, face_nodes_ids (g F) = face_nodes_ids F) ->
  forall f', ids_of_face (upd_faceH (alter g f) s) f' = ids_of_face s f'.
Proof.
  intros Hg f'. unfold ids_of_face.
  change (faceH (upd_faceH (alter g f) s)) with (alter g f (faceH s)).
  destruct (decide (f = f')) as [->|Hne].
  - rewrite list_lookup_alter_eq. destruct (faceH s !! f') as [F|]; simpl; [apply Hg | reflexivity].
  - rewrite list_lookup_alter_ne by exact Hne. reflexivity.
Qed.

Lemma same_records_stable s0 : link_stable (same_records s0).
Proof.
  split.
  - intros f n s [HL HF]. split; [exact HL |]. intros f'. rewrite <- HF.
    apply (ids_of_face_alter _ f (upd_nodeH _ s)). reflexivity.
  - intros f e s [HL HF]. split; [exact HL |]. intros f'. rewrite <- HF.
    apply (ids_of_face_alter _ f (upd_edgeH _ s)). reflexivity.
  - intros n e s H. exact H.
  - intros s H. exact H.
  - intros e s H. exact H.
Qed.

Lemma for_each_cons {A} (a : A) (l : list A) (body : A -> M unit) s :
  for_each (a :: l) body s =
    match snd (body a s) with
    | inr _ => for_each l body (fst (body a s))
    | inl e => (fst (body a s), inl e)
    end.
Proof. simpl. rewrite bind_run. reflexivity. Qed.

Lemma for_each_app {A} (l1 l2 : list A) (body : A -> M unit) s :
  for_each (l1 ++ l2) body s =
    match snd (for_each l1 body s) with
    | inr _ => for_each l2 body (fst (for_each l1 body s))
    | inl e => (fst (for_each l1 body s), inl e)
    end.
Proof.
  revert s. induction l1 as [|a l1 IH]; intros s; simpl; [reflexivity |].
  rewrite !bind_run. destruct (snd (body a s)) as [e|[]]; simpl; [reflexivity | apply IH].
Qed.

Lemma bad_record_same s0 s nodes f :
  same_records s0 s -> bad_record s0 nodes f -> bad_record s nodes f.
Proof.
  intros [HL HF]. unfold bad_record, list_at. rewrite HL, HF. tauto.
Qed.

Lemma set_face_bad nodes f s :
  bad_record s nodes f -> set_face nodes f s = (s, inl IndexError).
Proof.
  intros Hbad. destruct (bad_record_unresolved _ _ _ Hbad) as (k & Hk & Hnone).
  exact (set_face_unresolved nodes f s k Hk Hnone).
Qed.

Lemma set_face_raises_IndexError nodes f : raises (eq IndexError) (set_face nodes f).
Proof.
  unfold set_face.
  do 3 (apply raises_bind; [apply raises_local_node; reflexivity | intros ?]).
  do 3 (apply raises_bind; [total | intros _]).
  do 2 (apply raises_bind;
        [apply raises_total; intros s; exists tt; apply attach_edge_total | intros _]).
  apply raises_total; intros s; exists tt; apply attach_edge_total.
Qed.

(** C5. A face record with fewer than three indices, or with one of its
    three indices above the zone's node count (index 4 with 3 local nodes) or
    at or below minus that count, makes [set_faces] raise IndexError, the
    exception of Python's own indexing, whatever the other records are. *)
Theorem bad_record_raises (nodes : handle) (faces : list handle) (s : state) :
  (exists f, f ∈ faces /\ bad_record s nodes f) ->
  snd (set_faces nodes faces s) = inl IndexError.
Proof.
  unfold set_faces. revert s. induction faces as [|a faces IH]; intros s (f & Hin & Hbad).
  - inversion Hin.
  - simpl. rewrite bind_run.
    pose proof (set_face_raises_IndexError nodes a s I) as Hr. simpl in Hr.
    pose proof (keeps_set_face (same_records s) nodes a (same_records_stable s) s
                  (conj eq_refl (fun _ => eq_refl))) as Hsame. simpl in Hsame.
    destruct (snd (set_face nodes a s)) as [e|[]] eqn:E; simpl.
    + congruence.
    + apply list_elem_of_In in Hin. destruct Hin as [->|Hin].
      * rewrite set_face_bad in E by exact Hbad. discriminate.
      * apply IH. exists f. split; [apply list_elem_of_In, Hin |].
        eapply bad_record_same; eassumption.
Qed.

(** C4. When the records before a bad one are linked without error,
    [set_faces] stops at the bad record with IndexError in exactly the state
    those earlier records produced: the bad record and the ones after it are
    not linked, and nothing that was linked or created before is undone. *)
Theorem abort_keeps_earlier_faces (nodes : handle) (before : list handle) (f : handle)
    (after : list handle) (s : state) :
  snd (set_faces nodes before s) = inr tt ->
  bad_record s nodes f ->
  set_faces nodes (before ++ f :: after) s = (fst (set_faces nodes before s), inl IndexError).
Proof.
  intros Hok Hbad. unfold set_faces in *. rewrite for_each_app, Hok. simpl.
  rewrite bind_run.
  pose proof (keeps_set_faces (same_records s) nodes before (same_records_stable s) s
                (conj eq_refl (fun _ => eq_refl))) as Hsame. simpl in Hsame.
  unfold set_faces in Hsame.
  rewrite set_face_bad by (eapply bad_record_same; eassumption). reflexivity.
Qed.

(** ** Parsing a zone block *)

(** The loop over [zip(xs, ys)], when it ends without error, has created one
    node per pair and appended them, in order, to the list; nothing else
    has changed. *)
Lemma zip_nodes_count nodes xs : forall ys s s',
  zip_nodes nodes xs ys s = (s', inr tt) ->
  let n := Nat.min (length xs) (length ys) in
  exists new,
    length new = n /\ Forall unlinked_node new
    /\ s' = upd_listH (alter (fun l => l ++ seq (length (nodeH s)) n) nodes)
              (upd_nodeH (fun h => h ++ new) s).
Proof.
  assert (Hnil : forall s, s = upd_listH (alter (fun l => l ++ seq (length (nodeH s)) 0) nodes)
                              (upd_nodeH (fun h => h ++ []) s)).
  { intros s. destruct s; unfold upd_listH, upd_nodeH; simpl. rewrite app_nil_r. f_equal.
    symmetry. apply list_alter_id. intros l. apply app_nil_r. }
  induction xs as [|tx xs IH]; intros ys s s' Hrun; simpl in Hrun.
  - injection Hrun as <-. exists []. simpl. auto.
  - rewrite bind_run in Hrun. destruct (py_float tx) as [x|]; simpl in Hrun; [| discriminate].
    destruct ys as [|ty ys].
    + injection Hrun as <-. exists []. simpl. auto.
    + rewrite bind_run in Hrun.
      destruct (py_float ty) as [y|]; simpl in Hrun; [| discriminate].
      set (s2 := upd_listH (alter (fun l => l ++ [length (nodeH s)]) nodes)
                   (upd_nodeH (fun h => h ++ [mkNode x y [] [] None]) s)).
      assert (Hrun' : zip_nodes nodes xs ys s2 = (s', inr tt))
        by (rewrite !bind_run in Hrun; exact Hrun).
      destruct (IH ys s2 s' Hrun') as (new & Hlen & Hnew & ->).
      exists (mkNode x y [] [] None :: new). simpl. split; [lia |].
      split; [constructor; [split; reflexivity | exact Hnew] |].
      unfold s2, upd_listH, upd_nodeH. simpl. f_equal.
      * rewrite <- app_assoc. reflexivity.
      * rewrite list_alter_alter_eq. apply list_alter_ext; [| reflexivity].
        intros l _. simpl. rewrite length_app, <- app_assoc. simpl.
        rewrite Nat.add_1_r. reflexivity.
Qed.

Lemma zip_nodes_total nodes xs : forall ys s,
  Forall (fun t => is_Some (py_float t)) xs ->
  Forall (fun t => is_Some (py_float t)) ys ->
  snd (zip_nodes nodes xs ys s) = inr tt.
Proof.
  induction xs as [|tx xs IH]; intros ys s Hx Hy; simpl; [reflexivity |].
  apply Forall_cons in Hx as [[x Hx] Hxs]. rewrite bind_run, Hx. simpl.
  destruct ys as [|ty ys]; [reflexivity |].
  apply Forall_cons in Hy as [[y Hy] Hys]. rewrite bind_run, Hy. simpl.
  rewrite !bind_run. simpl. apply IH; assumption.
Qed.

(** [list(map(int, ids))] reads no state. *)
Lemma map_int_run ids s :
  map_int ids s = (s, match mapM py_int ids with
                      | Some l => inr l
                      | None => inl ValueError
                      end).
Proof.
  induction ids as [|t ids IH]; simpl; [reflexivity |].
  rewrite bind_run. destruct (py_int t) as [i|]; simpl; [| reflexivity].
  rewrite bind_run, IH. simpl. destruct (mapM py_int ids); reflexivity.
Qed.

(** The face loop, when it ends without error, has created one face per
    line, in line order, each holding the indices of its line and not yet
    linked to any node or edge; nothing else has changed. *)
Lemma parce_faces_spec lines : forall s s' fs,
  parce_faces lines s = (s', inr fs) ->
  exists new,
    s' = upd_faceH (fun h => h ++ new) s
    /\ fs = seq (length (faceH s)) (length lines)
    /\ Forall2 (fun line F => mapM py_int (tokens line) = Some (face_nodes_ids F)
                              /\ face_nodes F = [] /\ face_edges F = []) lines new.
Proof.
  induction lines as [|line lines IH]; intros s s' fs Hrun; simpl in Hrun.
  - injection Hrun as <- <-. exists []. split; [| split; [reflexivity | constructor]].
    destruct s; unfold upd_faceH; simpl. rewrite app_nil_r. reflexivity.
  - rewrite bind_run in Hrun. simpl in Hrun.
    rewrite bind_run, map_int_run in Hrun. simpl in Hrun.
    destruct (mapM py_int (tokens line)) as [ids|] eqn:Eids; simpl in Hrun; [| discriminate].
    rewrite bind_run in Hrun. simpl in Hrun. rewrite bind_run in Hrun.
    set (s2 := upd_faceH (fun h => h ++ [mkFace ids [] [] None]) s).
    match type of Hrun with
    | context [parce_faces lines ?st] => replace st with s2 in Hrun
    end.
    2:{ unfold s2, upd_faceH. simpl. f_equal.
        rewrite <- (Nat.add_0_r (length (faceH s))), alter_app_r. reflexivity. }
    destruct (parce_faces lines s2) as [s3 [e|fs']] eqn:Erec; simpl in Hrun; [discriminate |].
    injection Hrun as <- <-.
    destruct (IH _ _ _ Erec) as (new & -> & -> & Hall).
    exists (mkFace ids [] [] None :: new). split; [| split].
    + unfold s2, upd_faceH. simpl. rewrite <- app_assoc. reflexivity.
    + unfold s2. simpl. rewrite length_app. simpl. rewrite Nat.add_1_r. reflexivity.
    + constructor; [auto | exact Hall].
Qed.

Lemma parce_faces_total lines s :
  Forall (fun line => Forall (fun t => is_Some (py_int t)) (tokens line)) lines ->
  exists fs, snd (parce_faces lines s) = inr fs.
Proof.
  revert s. induction lines as [|line lines IH]; intros s Hall; simpl.
  - eexists; reflexivity.
  - apply Forall_cons in Hall as [Hline Hall].
    rewrite bind_run. simpl. rewrite bind_run, map_int_run. simpl.
    destruct (mapM py_int (tokens line)) as [ids|] eqn:Eids.
    + simpl. rewrite bind_run. simpl. rewrite bind_run.
      match goal with |- context [parce_faces lines ?st] =>
        destruct (IH st Hall) as [fs ->] end.
      simpl. eexists; reflexivity.
    + exfalso. apply mapM_None in Eids. apply Exists_exists in Eids as (t & Ht & Hnone).
      rewrite Forall_forall in Hline. destruct (Hline t Ht) as [i Hi]. congruence.
Qed.

(** C10. For a block whose first two lines are [l0] and [l1]: whenever
    [parce_nodes_and_faces] returns, it has created as many nodes as the
    shorter of the two token lists has tokens, and they are the returned
    list; and when every token of the block converts, it does return, so a
    surplus of values on either coordinate line raises nothing. *)
Theorem parce_node_count (lines : list string) (l0 l1 : string) (s : state) :
  lines !! 0%nat = Some l0 ->
  lines !! 1%nat = Some l1 ->
  let n := Nat.min (length (tokens l0)) (length (tokens l1)) in
  (forall s' nodes faces,
      parce_nodes_and_faces lines s = (s', inr (nodes, faces)) ->
      length (nodeH s') = (length (nodeH s) + n)%nat
      /\ list_at s' nodes = seq (length (nodeH s)) n)
  /\ (Forall (fun t => is_Some (py_float t)) (tokens l0) ->
      Forall (fun t => is_Some (py_float t)) (tokens l1) ->
      Forall (fun line => Forall (fun t => is_Some (py_int t)) (tokens line)) (drop 2 lines) ->
      exists s' nodes faces, parce_nodes_and_faces lines s = (s', inr (nodes, faces))).
Proof.
  intros H0 H1 n.
  assert (E0 : py_index lines 0 = Some l0) by exact H0.
  assert (E1 : py_index lines 1 = Some l1) by exact H1.
  set (s1 := upd_listH (fun h => h ++ [[]]) s).
  assert (Hrun : parce_nodes_and_faces lines s =
                 match snd (zip_nodes (length (listH s)) (tokens l0) (tokens l1) s1) with
                 | inr _ =>
                     let s2 := fst (zip_nodes (length (listH s)) (tokens l0) (tokens l1) s1) in
                     match snd (parce_faces (drop 2 lines) s2) with
                     | inr fs => (fst (parce_faces (drop 2 lines) s2), inr (length (listH s), fs))
                     | inl e => (fst (parce_faces (drop 2 lines) s2), inl e)
                     end
                 | inl e => (fst (zip_nodes (length (listH s)) (tokens l0) (tokens l1) s1), inl e)
                 end).
  { unfold parce_nodes_and_faces. rewrite bind_run, E0. simpl.
    rewrite bind_run, E1. simpl. rewrite bind_run. simpl. fold s1.
    rewrite bind_run. destruct (snd (zip_nodes _ _ _ s1)) as [e|[]]; [reflexivity |].
    rewrite bind_run. destruct (snd (parce_faces _ _)); reflexivity. }
  split.
  - intros s' nodes faces Hret. rewrite Hrun in Hret.
    destruct (zip_nodes (length (listH s)) (tokens l0) (tokens l1) s1)
      as [s2 [e|[]]] eqn:Ezip; simpl in Hret; [discriminate |].
    destruct (parce_faces (drop 2 lines) s2) as [s3 [e|fs]] eqn:Efaces;
      simpl in Hret; [discriminate |].
    injection Hret as <- <- <-.
    destruct (zip_nodes_count _ _ _ _ _ Ezip) as (new & Hlen & _ & ->).
    destruct (parce_faces_spec _ _ _ _ Efaces) as (newf & -> & _ & _).
    unfold list_at, s1. simpl. rewrite length_app, Hlen. split; [reflexivity |].
    rewrite list_lookup_alter_eq, lookup_app_r by lia.
    rewrite Nat.sub_diag. reflexivity.
  - intros Hx Hy Hf. rewrite Hrun.
    rewrite (zip_nodes_total _ _ _ s1 Hx Hy). simpl.
    destruct (parce_faces_total (drop 2 lines)
                (fst (zip_nodes (length (listH s)) (tokens l0) (tokens l1) s1)) Hf)
      as [fs ->].
    eauto.
Qed.

(** ** The connectivity list *)

Lemma append_assoc (a b c : string) : (a +:+ b) +:+ c = a +:+ (b +:+ c).
Proof.
  induction a as [|ch a IH]; [reflexivity |].
  change (String ch ((a +:+ b) +:+ c) = String ch (a +:+ (b +:+ c))).
  f_equal; exact IH.
Qed.

Lemma append_nil_r (a : string) : a +:+ "" = a.
Proof.
  induction a as [|ch a IH]; [reflexivity |].
  change (String ch (a +:+ "") = String ch a). f_equal; exact IH.
Qed.

Lemma appended_nil filename s : appended filename "" s = s.
Proof.
  unfold appended, upd_files. destruct s; simpl. f_equal.
  rewrite (alter_ext _ id); [apply alter_id; reflexivity |].
  intros c _. apply append_nil_r.
Qed.

Lemma appended_appended filename t1 t2 s :
  appended filename t2 (appended filename t1 s) = appended filename (t1 +:+ t2) s.
Proof.
  unfold appended, upd_files. simpl. f_equal.
  rewrite alter_alter_eq. apply alter_ext. intros c _. simpl. apply append_assoc.
Qed.

Lemma write_run filename text s : write filename text s = (appended filename text s, inr tt).
Proof. reflexivity. Qed.

Lemma count_nl_app (a b : string) : count_nl (a +:+ b) = (count_nl a + count_nl b)%nat.
Proof.
  induction a as [|c a IH]; [reflexivity |].
  change (count_nl (String c (a +:+ b)) = (count_nl (String c a) + count_nl b)%nat).
  simpl. rewrite IH. lia.
Qed.

Lemma count_nl_pretty_N_go (x : N) (s : string) : count_nl (pretty_N_go x s) = count_nl s.
Proof.
  revert s. induction (N.lt_wf_0 x) as [x _ IH]; intros s.
  destruct (decide (x = 0%N)) as [->|Hx]; [reflexivity |].
  rewrite pretty_N_go_step by lia.
  rewrite IH by (apply N.div_lt; lia).
  assert (Hc : forall d, Ascii.eqb (pretty_N_char d) (ascii_of_nat 10) = false)
    by (intros d; unfold pretty_N_char; repeat case_match; reflexivity).
  simpl. rewrite Hc. reflexivity.
Qed.

Lemma count_nl_pretty_N (x : N) : count_nl (pretty x) = O.
Proof.
  unfold pretty, pretty_N. case_decide; [reflexivity | apply count_nl_pretty_N_go].
Qed.

(** [str] of an integer holds no line end. *)
Lemma count_nl_str_int (n : Z) : count_nl (str_int n) = O.
Proof.
  unfold str_int, pretty, pretty_Z. destruct n as [|p|p].
  - reflexivity.
  - apply (count_nl_pretty_N (Npos p)).
  - rewrite count_nl_app. apply (count_nl_pretty_N (Npos p)).
Qed.

Lemma list_index_first v l p : list_index v l = Some p -> first_position l v p.
Proof.
  revert p. induction l as [|w l IH]; intros p H; simpl in H; [discriminate |].
  destruct (Nat.eqb w v) eqn:E.
  - injection H as <-. apply Nat.eqb_eq in E as ->. split; [reflexivity | intros q Hq; lia].
  - apply Nat.eqb_neq in E. destruct (list_index v l) as [p'|]; simpl in H; [| discriminate].
    injection H as <-. destruct (IH p' eq_refl) as [Hp Hmin]. split; [exact Hp |].
    intros [|q] Hq; simpl; [congruence | apply Hmin; lia].
Qed.

Lemma list_index_elem v l : v ∈ l -> exists p, list_index v l = Some p.
Proof.
  induction l as [|w l IH]; intros H; [inversion H |]. simpl.
  destruct (Nat.eqb w v) eqn:E; [eauto |].
  apply Nat.eqb_neq in E. apply elem_of_cons in H as [->|H]; [congruence |].
  destruct (IH H) as [p ->]. simpl. eauto.
Qed.

Lemma count_nl_position_text ps : count_nl (position_text ps) = O.
Proof.
  induction ps as [|p ps IH]; [reflexivity |].
  unfold position_text in *. simpl. rewrite !count_nl_app, count_nl_str_int, IH. reflexivity.
Qed.

(** The inner loop, over the nodes of a face that all occur in [nodes]. *)
Lemma write_positions filename nodes ns : forall s,
  (forall n, n ∈ ns -> n ∈ nodes) ->
  exists ps,
    Forall2 (first_position nodes) ns ps
    /\ for_each ns (fun node =>
         i <- or_raise ValueError (list_index node nodes) ;;
         write filename (str_int (Z.of_nat i + 1) +:+ " ")) s
       = (appended filename (position_text ps) s, inr tt).
Proof.
  induction ns as [|n ns IH]; intros s Hin.
  - exists []. split; [constructor |]. simpl. rewrite appended_nil. reflexivity.
  - destruct (list_index_elem n nodes (Hin n (list_elem_of_here _ _))) as [p Hp].
    destruct (IH (appended filename (str_int (Z.of_nat p + 1) +:+ " ") s)) as (ps & Hps & Hrun).
    { intros m Hm. apply Hin. right. exact Hm. }
    exists (p :: ps). split; [constructor; [apply list_index_first, Hp | exact Hps] |].
    rewrite for_each_cons.
    assert (Hbody : (i <- or_raise ValueError (list_index n nodes) ;;
                     write filename (str_int (Z.of_nat i + 1) +:+ " ")) s
                    = (appended filename (str_int (Z.of_nat p + 1) +:+ " ") s, inr tt))
      by (rewrite bind_run, Hp; reflexivity).
    rewrite Hbody. simpl fst. simpl snd. cbv iota. rewrite Hrun, appended_appended.
    reflexivity.
Qed.

Lemma write_faces filename nodes faces : forall s,
  (forall face node, face ∈ faces -> node ∈ nodes_of_face s face -> node ∈ nodes) ->
  exists lines,
    Forall2 (face_line s nodes) faces lines
    /\ for_each faces (fun face =>
         ns <- gets (fun s => nodes_of_face s face) ;;
         for_each ns (fun node =>
           i <- or_raise ValueError (list_index node nodes) ;;
           write filename (str_int (Z.of_nat i + 1) +:+ " ")) ;;
         write filename nl) s
       = (appended filename (join lines) s, inr tt).
Proof.
  induction faces as [|face faces IH]; intros s Hin.
  - exists []. split; [constructor |]. simpl. rewrite appended_nil. reflexivity.
  - destruct (write_positions filename nodes (nodes_of_face s face) s) as (ps & Hps & Hrun).
    { intros n Hn. apply (Hin face n); [left | exact Hn]. }
    set (line := position_text ps +:+ nl).
    destruct (IH (appended filename line s)) as (lines & Hlines & Hrest).
    { intros face' n Hf Hn. apply (Hin face' n); [right; exact Hf | exact Hn]. }
    exists (line :: lines). split.
    + constructor; [| exact Hlines]. split; [| exists ps; auto].
      unfold line. rewrite count_nl_app, count_nl_position_text. reflexivity.
    + rewrite for_each_cons.
      match goal with |- context [snd (?body s)] =>
        assert (Hbody : body s = (appended filename line s, inr tt)) end.
      { rewrite bind_run. simpl fst. simpl snd. cbv iota.
        rewrite bind_run, Hrun. simpl fst. simpl snd. cbv iota.
        rewrite write_run, appended_appended. reflexivity. }
      rewrite Hbody. simpl fst. simpl snd. cbv iota.
      rewrite Hrest, appended_appended. reflexivity.
Qed.

(** C8. When every node of every face occurs in the node enumeration,
    [print_connectivity_list] appends to the file one line per face, in face
    order; the line of a face lists, for each node of the face in stored
    order, the 1-based position of the node's first occurrence in the
    enumeration, each followed by a blank. *)
Theorem connectivity_list_lines (filename : string) (nodes faces : list handle) (s : state) :
  (forall face node, face ∈ faces -> node ∈ nodes_of_face s face -> node ∈ nodes) ->
  exists lines : list string,
    Forall2 (face_line s nodes) faces lines
    /\ snd (print_connectivity_list filename nodes faces s) = inr tt
    /\ files (fst (print_connectivity_list filename nodes faces s)) !! filename
       = Some (default "" (files s !! filename) +:+ join lines).
Proof.
  intros Hin. unfold print_connectivity_list.
  remember (fst (open_a filename s)) as s1 eqn:Es1.
  destruct (write_faces filename nodes faces s1) as (lines & Hlines & Hrun).
  { rewrite Es1. intros face node. apply Hin. }
  exists lines. split; [rewrite Es1 in Hlines; exact Hlines |].
  rewrite bind_run.
  change (snd (open_a filename s)) with (@inr exn unit tt). cbv iota.
  rewrite <- Es1, Hrun. split; [reflexivity |].
  rewrite Es1. simpl. rewrite lookup_alter_eq.
  destruct (files s !! filename) as [c|] eqn:E; simpl.
  - rewrite E. reflexivity.
  - rewrite lookup_insert_eq. reflexivity.
Qed.

(** ** Invariants out of reach of a phase *)

Lemma keeps_resolve_from (I : state -> Prop) (matcher : handle -> M handle) nodes l :
  free_listH I -> (forall c, keeps I (matcher c)) ->
  forall i, keeps I (resolve_from matcher nodes i l).
Proof.
  intros HL Hm. induction l as [|c l IH]; intros i; simpl; [apply keeps_ret |].
  apply keeps_bind; [apply Hm | intros m].
  apply keeps_bind; [apply keeps_modify; intros s Hs; apply HL, Hs | intros _].
  apply IH.
Qed.

Lemma keeps_linear (I : state -> Prop) c : free_Nodes I -> keeps I (find_or_insert_linear c).
Proof.
  intros HG s Hs. unfold find_or_insert_linear.
  destruct (List.find _ _); [exact Hs | apply (HG _ s Hs)].
Qed.

Lemma keeps_1_sided (I : state -> Prop) c : free_Nodes I -> keeps I (find_or_insert_1_sided c).
Proof.
  intros HG s Hs. unfold find_or_insert_1_sided. cbv zeta.
  destruct (scan_run _ _ _); [exact Hs | apply (HG _ s Hs)].
Qed.

Lemma keeps_2_sided (I : state -> Prop) c : free_Nodes I -> keeps I (find_or_insert_2_sided c).
Proof.
  intros HG s Hs. unfold find_or_insert_2_sided. cbv zeta.
  match goal with |- context [match ?h with Some _ => _ | None => _ end] =>
    destruct h end; [exact Hs | apply (HG _ s Hs)].
Qed.

Lemma keeps_set_nodes (I : state -> Prop) nodes algorithm :
  free_listH I -> free_Nodes I -> keeps I (set_nodes nodes algorithm).
Proof.
  intros HL HG. unfold set_nodes. apply keeps_for_each; intros n _.
  repeat (apply keeps_bind; [| intros _]);
    (apply keeps_if; [| apply keeps_ret]);
    unfold n_square, dichotomy_1_sided, dichotomy_2_sided, resolve_zone;
    (apply keeps_bind; [apply keeps_gets | intros l]);
    apply keeps_resolve_from; try assumption; intros c;
    [apply keeps_linear | apply keeps_1_sided | apply keeps_2_sided]; assumption.
Qed.

Lemma link_stable_free (I : state -> Prop) :
  free_nodeH I -> free_faceH I -> free_edgeH I -> free_Edges I -> link_stable I.
Proof.
  intros HN HF HE HG. split.
  - intros f n s Hs. apply (HN _ _ (HF _ s Hs)).
  - intros f e s Hs. apply (HE _ _ (HF _ s Hs)).
  - intros n e s Hs. apply (HE _ _ (HN _ s Hs)).
  - intros s Hs. apply (HE _ s Hs).
  - intros e s Hs. apply (HG _ s Hs).
Qed.

(** ** The zones of a file *)

(** The state after [parce_nodes_and_faces] has returned: the new nodes, the
    list holding them and the new faces are appended to their arenas. *)
Lemma parce_nodes_and_faces_spec lines s s' r fs :
  parce_nodes_and_faces lines s = (s', inr (r, fs)) ->
  exists l0 l1 newn newf,
    lines !! 0%nat = Some l0 /\ lines !! 1%nat = Some l1
    /\ length newn = Nat.min (length (tokens l0)) (length (tokens l1))
    /\ Forall unlinked_node newn
    /\ Forall2 face_of_line (drop 2 lines) newf
    /\ r = length (listH s)
    /\ fs = seq (length (faceH s)) (length newf)
    /\ s' = upd_faceH (fun h => h ++ newf)
              (upd_listH (fun h => h ++ [seq (length (nodeH s)) (length newn)])
                 (upd_nodeH (fun h => h ++ newn) s)).
Proof.
  unfold parce_nodes_and_faces. intros Hrun.
  rewrite bind_run in Hrun. change (py_index lines 0) with (lines !! 0%nat) in Hrun.
  destruct (lines !! 0%nat) as [l0|] eqn:E0; simpl in Hrun; [| discriminate].
  rewrite bind_run in Hrun. change (py_index lines 1) with (lines !! 1%nat) in Hrun.
  destruct (lines !! 1%nat) as [l1|] eqn:E1; simpl in Hrun; [| discriminate].
  rewrite bind_run in Hrun. simpl in Hrun. rewrite bind_run in Hrun.
  set (s1 := upd_listH (fun h => h ++ [[]]) s) in Hrun.
  destruct (zip_nodes (length (listH s)) (tokens l0) (tokens l1) s1)
    as [s2 [e|[]]] eqn:Ezip; simpl in Hrun; [discriminate |].
  rewrite bind_run in Hrun.
  destruct (parce_faces (drop 2 lines) s2) as [s3 [e|fs']] eqn:Efaces;
    simpl in Hrun; [discriminate |].
  injection Hrun as <- <- <-.
  destruct (zip_nodes_count _ _ _ _ _ Ezip) as (newn & Hlen & Hnew & ->).
  destruct (parce_faces_spec _ _ _ _ Efaces) as (newf & -> & -> & Hall).
  exists l0, l1, newn, newf. repeat split; try assumption.
  - simpl. rewrite <- (Forall2_length _ _ _ Hall). reflexivity.
  - unfold s1, upd_faceH, upd_listH, upd_nodeH. simpl. f_equal.
    rewrite <- (Nat.add_0_r (length (listH s))), alter_app_r. simpl.
    rewrite Hlen. reflexivity.
Qed.

Lemma read_zones_step lines f i zs nodes faces s s' out :
  read_zones lines ((f, i) :: zs) nodes faces s = (s', inr out) ->
  exists s3 r fs,
    zone_added lines (f, i) s s3 r fs
    /\ read_zones lines zs (nodes ++ [r]) (faces ++ [fs]) s3 = (s', inr out).
Proof.
  intros Hrun. cbn [read_zones] in Hrun.
  apply bind_inr in Hrun as (s1 & z & Hz & Hrun).
  apply bind_inr in Hrun as (s1' & [] & Hz' & Hrun).
  apply bind_inr in Hrun as (s2 & [r fs] & Hparce & Hrun).
  apply bind_inr in Hrun as (s3 & [] & Hs3 & Hrun).
  exists s3, r, fs. split; [| exact Hrun].
  destruct (parce_nodes_and_faces_spec _ _ _ _ _ Hparce)
    as (l0 & l1 & newn & newf & _ & _ & _ & Hnewn & Hnewf & Hr & Hfs & Hs2).
  injection Hz as <- <-. injection Hz' as <-. injection Hs3 as <-.
  exists newn, newf. repeat split; try assumption.
  - rewrite Hr. simpl. rewrite length_app. simpl. lia.
  - rewrite Hs2. apply state_eq; try reflexivity.
    + cbn [zoneH upd_zoneH upd_grid upd_faceH upd_listH upd_nodeH].
      rewrite <- (Nat.add_0_r (length (zoneH s))), alter_app_r. reflexivity.
    + cbn [listH upd_zoneH upd_grid upd_faceH upd_listH upd_nodeH].
      rewrite <- app_assoc. reflexivity.
Qed.

Lemma faces_of_lines (s : state) lines newf : forall old rest,
  faceH s = old ++ newf ++ rest ->
  Forall2 face_of_line lines newf ->
  Forall2 (fun fh line => mapM py_int (tokens line) = Some (ids_of_face s fh))
          (seq (length old) (length newf)) lines.
Proof.
  intros old rest HF Hall. revert old HF.
  induction Hall as [|line F lines newf [Hids _] _ IH]; intros old HF; simpl; constructor.
  - unfold ids_of_face. rewrite HF, lookup_app_r by lia. rewrite Nat.sub_diag. exact Hids.
  - specialize (IH (old ++ [F])). rewrite length_app, Nat.add_1_r in IH.
    apply IH. rewrite HF, <- app_assoc. reflexivity.
Qed.

Lemma zone_added_facts lines fi s s3 r fs :
  zone_added lines fi s s3 r fs ->
  exists newf newn,
    Forall2 face_of_line (drop 2 (py_slice lines (snd fi) (snd fi + 2 + fst fi))) newf
    /\ Forall unlinked_node newn
    /\ fs = seq (length (faceH s)) (length newf)
    /\ r = S (length (listH s))
    /\ zoneH s3 = zoneH s ++ [mkZone r fs]
    /\ faceH s3 = faceH s ++ newf
    /\ nodeH s3 = nodeH s ++ newn
    /\ listH s3 = listH s ++ [[]; seq (length (nodeH s)) (length newn)]
    /\ edgeH s3 = edgeH s
    /\ grid s3 = set_Zones (Zones (grid s) ++ [length (zoneH s)]) (grid s)
    /\ files s3 = files s /\ opened s3 = opened s.
Proof.
  intros (newn & newf & Hn & Hf & Hr & Hfs & ->).
  exists newf, newn. repeat split; assumption || reflexivity.
Qed.

(** The zone loop, when it ends without error, has appended one zone per
    [ELEMENTS] line to [grid.Zones] and left [grid.Faces] alone; the lists it
    returns are the face lists of the new zones. *)
Lemma read_zones_spec lines zs : forall nodes faces s s' nodes' faces',
  read_zones lines zs nodes faces s = (s', inr (nodes', faces')) ->
  let newz := seq (length (zoneH s)) (length zs) in
  Zones (grid s') = Zones (grid s) ++ newz
  /\ Faces (grid s') = Faces (grid s)
  /\ (exists newZ, zoneH s' = zoneH s ++ newZ)
  /\ (exists newF, faceH s' = faceH s ++ newF)
  /\ faces' = faces ++ map (zone_faces s') newz
  /\ length nodes' = (length nodes + length zs)%nat
  /\ Forall2 (zone_of_lines s' lines) newz zs.
Proof.
  induction zs as [|[f i] zs IH]; intros nodes faces s s' nodes' faces' Hrun.
  - injection Hrun as <- <- <-. simpl. rewrite !app_nil_r.
    repeat split; try (exists []; rewrite app_nil_r; reflexivity). lia. constructor.
  - apply read_zones_step in Hrun as (s3 & r & fs & Hadd & Hrun).
    apply zone_added_facts in Hadd
      as (newf & newn & Hf & _ & Hfs & _ & HZ & HF & _ & _ & _ & HG & _ & _).
    destruct (IH _ _ _ _ _ _ Hrun) as (Hz & Hfa & (newZ & HZ') & (newF & HF') & Hfaces & Hlen & Hblocks).
    rewrite HZ, length_app in Hz, Hfaces, Hblocks. simpl in Hz, Hfaces, Hblocks.
    rewrite Nat.add_1_r in Hz, Hfaces, Hblocks.
    rewrite HG in Hz, Hfa. simpl in Hz, Hfa.
    assert (Hzone : zone_faces s' (length (zoneH s)) = fs).
    { unfold zone_faces. rewrite HZ', HZ, <- app_assoc, lookup_app_r by lia.
      rewrite Nat.sub_diag. reflexivity. }
    simpl. repeat split.
    + rewrite Hz, <- app_assoc. reflexivity.
    + exact Hfa.
    + exists ([mkZone r fs] ++ newZ). rewrite HZ', HZ, <- app_assoc. reflexivity.
    + exists (newf ++ newF). rewrite HF', HF, <- app_assoc. reflexivity.
    + rewrite Hfaces, Hzone, <- app_assoc. reflexivity.
    + rewrite Hlen, length_app. simpl. lia.
    + constructor; [| exact Hblocks].
      unfold zone_of_lines. rewrite Hzone, Hfs.
      apply faces_of_lines with (rest := newF); [| exact Hf].
      rewrite HF', HF, <- app_assoc. reflexivity.
Qed.

Lemma open_r_inr filename s s' text :
  open_r filename s = (s', inr text) ->
  s' = log_open filename "r" s /\ files s !! filename = Some text.
Proof.
  unfold open_r. intros H.
  apply bind_inr in H as (s1 & [] & H1 & H). injection H1 as <-.
  apply bind_inr in H as (s2 & c & H2 & H). injection H2 as <- <-.
  simpl in H. destruct (files s !! filename) as [c|]; [| discriminate].
  injection H as <- <-. auto.
Qed.

Lemma scan_elements_pure lines : forall i fc ix s, fst (scan_elements i lines fc ix s) = s.
Proof.
  induction lines as [|line lines IH]; intros i fc ix s; simpl; [reflexivity |].
  destruct (negb _); [| apply IH].
  rewrite bind_run. unfold number_of_faces.
  destruct (py_int _); simpl; [apply IH | reflexivity].
Qed.

Lemma link_stable_and (I J : state -> Prop) :
  link_stable I -> link_stable J -> link_stable (fun s => I s /\ J s).
Proof.
  intros [I1 I2 I3 I4 I5] [J1 J2 J3 J4 J5].
  split; intros; intros s [HI HJ]; split;
    first [ apply (I1 _ _ s HI) | apply (J1 _ _ s HJ) | apply (I2 _ _ s HI) | apply (J2 _ _ s HJ)
          | apply (I3 _ _ s HI) | apply (J3 _ _ s HJ) | apply (I4 s HI) | apply (J4 s HJ)
          | apply (I5 _ s HI) | apply (J5 _ s HJ) ].
Qed.

Lemma same_zones_stable s0 : link_stable (same_zones s0).
Proof. apply link_stable_free; intros ? s H; exact H. Qed.

(** The second loop of [read_tecplot], when it ends without error, has
    appended the face lists, in order, to [grid.Faces]. *)
Lemma link_zones_spec (l : list (list handle * handle)) : forall s s',
  for_each l (fun fn =>
    set_faces (snd fn) (fst fn) ;;
    modify (upd_grid (fun g => set_Faces (Faces g ++ fst fn) g))) s = (s', inr tt) ->
  Faces (grid s') = Faces (grid s) ++ concat (map fst l)
  /\ zoneH s' = zoneH s /\ Zones (grid s') = Zones (grid s)
  /\ forall f, ids_of_face s' f = ids_of_face s f.
Proof.
  induction l as [|[fs n] l IH]; intros s s' Hrun.
  - injection Hrun as <-. simpl. rewrite app_nil_r. auto.
  - cbn [for_each] in Hrun.
    apply bind_inr in Hrun as (s2 & [] & Hbody & Hrun).
    apply bind_inr in Hbody as (s1 & [] & Hset & Hmod). injection Hmod as <-.
    pose proof (keeps_set_faces _ n fs
                  (link_stable_and _ _ (same_zones_stable s) (same_records_stable s)) s
                  (conj (conj eq_refl (conj eq_refl eq_refl)) (conj eq_refl (fun _ => eq_refl))))
      as Hkeep.
    simpl in Hkeep. cbn [fst snd] in Hset. rewrite Hset in Hkeep.
    destruct Hkeep as [(HZ & HGZ & HGF) (_ & Hids)]. cbn [fst] in HZ, HGZ, HGF, Hids.
    destruct (IH _ _ Hrun) as (HF' & HZ' & HGZ' & Hids').
    simpl in HF', HZ', HGZ', Hids'. simpl.
    rewrite HF', HZ', HGZ', HGF, HZ, HGZ, <- app_assoc. repeat split.
    intros f. rewrite Hids'. apply Hids.
Qed.

(** Numbering changes nothing but the ids. *)
Lemma number_from_lookup {A B} (set_id : nat -> A -> A) (p : A -> B) l :
  (forall i a, p (set_id i a) = p a) ->
  forall i h k, p <$> number_from set_id i l h !! k = p <$> h !! k.
Proof.
  intros Hp. induction l as [|o l IH]; intros i h k; simpl; [reflexivity |].
  rewrite IH. destruct (decide (o = k)) as [->|Hne].
  - rewrite list_lookup_alter_eq. destruct (h !! k); simpl; [rewrite Hp |]; reflexivity.
  - rewrite list_lookup_alter_ne by exact Hne. reflexivity.
Qed.

Lemma init_ids_ids s f : ids_of_face (fst (init_ids s)) f = ids_of_face s f.
Proof.
  unfold ids_of_face. simpl. rewrite number_from_lookup; reflexivity.
Qed.

Lemma scan_elements_stateless lines : forall i fc ix s t,
  snd (scan_elements i lines fc ix s) = snd (scan_elements i lines fc ix t).
Proof.
  induction lines as [|line lines IH]; intros i fc ix s t; simpl; [reflexivity |].
  destruct (negb _); [| apply IH].
  rewrite !bind_run. unfold number_of_faces.
  destruct (py_int _); simpl; [apply IH | reflexivity].
Qed.

(** C9. In a grid whose face sequence is the concatenation of its zones'
    face lists (a new [Grid()] for one), a [read_tecplot] that completes
    leaves it so; and the face list of each zone it has added holds, in
    line order, one face per face line of the zone's block, the face
    carrying the indices written on its line. *)
Theorem faces_follow_zones (filename algorithm : string) (s s' : state) :
  Forall (fun z => (z < length (zoneH s))%nat) (Zones (grid s)) ->
  Faces (grid s) = concat (map (zone_faces s) (Zones (grid s))) ->
  read_tecplot filename algorithm s = (s', inr tt) ->
  Faces (grid s') = concat (map (zone_faces s') (Zones (grid s')))
  /\ exists text fc ix,
       files s !! filename = Some text
       /\ snd (scan_elements 0 (readlines text) [] [] s) = inr (fc, ix)
       /\ Forall2 (zone_of_lines s' (readlines text))
                  (drop (length (Zones (grid s))) (Zones (grid s'))) (zip fc ix).
Proof.
  intros Hwf Hinv Hrun. unfold read_tecplot in Hrun.
  apply bind_inr in Hrun as (s0 & [] & Hchk & Hrun).
  assert (s0 = s) as -> by (destruct (bool_decide _); [injection Hchk as <-; reflexivity | discriminate]).
  clear Hchk.
  apply bind_inr in Hrun as (sa & text & Hopen & Hrun).
  apply open_r_inr in Hopen as [-> Htext]. cbv zeta in Hrun.
  apply bind_inr in Hrun as (sa & [fc ix] & Hscan & Hrun).
  pose proof (scan_elements_pure (readlines text) 0 [] [] (log_open filename "r" s)) as Hpure.
  pose proof (scan_elements_stateless (readlines text) 0 [] [] s (log_open filename "r" s)) as Hsnd.
  rewrite Hscan in Hpure, Hsnd. cbn [fst snd] in Hpure, Hsnd. subst sa. clear Hscan.
  apply bind_inr in Hrun as (sb & [nodes faces] & Hzones & Hrun). cbn [fst snd] in Hrun.
  apply bind_inr in Hrun as (sc & [] & Hnodes & Hrun).
  apply bind_inr in Hrun as (sd & [] & Hlink & Hinit).
  assert (s' = fst (init_ids sd)) as -> by (rewrite Hinit; reflexivity). clear Hinit.
  apply read_zones_spec in Hzones
    as (HbZ & HbF & (newZ & HbzH) & (newF & HbfH) & Hfaces & Hlen & Hblocks).
  cbn [fst snd] in HbZ, HbF, HbzH, HbfH, Hfaces, Hlen, Hblocks.
  change (zoneH (log_open filename "r" s)) with (zoneH s) in *.
  change (faceH (log_open filename "r" s)) with (faceH s) in *.
  change (grid (log_open filename "r" s)) with (grid s) in *.
  assert (Hlenz : length (zip fc ix) = length faces)
    by (rewrite Hfaces; simpl; rewrite length_map, length_seq; reflexivity).
  pose proof (keeps_set_nodes (fun t => same_zones sb t /\ faceH t = faceH sb) nodes algorithm)
    as Hc.
  specialize (Hc (fun f t H => H) (fun l t H => H) sb
                (conj (conj eq_refl (conj eq_refl eq_refl)) eq_refl)).
  simpl in Hc. rewrite Hnodes in Hc. cbn [fst] in Hc.
  destruct Hc as [(HcZ & HcGZ & HcGF) HcF].
  apply link_zones_spec in Hlink as (HdF & HdZ & HdGZ & Hdids).
  rewrite fst_zip in HdF by lia.
  assert (Hzf : forall z, zone_faces (fst (init_ids sd)) z = zone_faces sb z).
  { intros z. unfold zone_faces. simpl. rewrite HdZ, HcZ. reflexivity. }
  assert (Hids : forall f, ids_of_face (fst (init_ids sd)) f = ids_of_face sb f).
  { intros f. rewrite init_ids_ids, Hdids. unfold ids_of_face. rewrite HcF. reflexivity. }
  assert (HZs : Zones (grid (fst (init_ids sd)))
                = Zones (grid s) ++ seq (length (zoneH s)) (length (zip fc ix)))
    by (simpl; rewrite HdGZ, HcGZ; exact HbZ).
  split.
  - rewrite HZs, map_app, concat_app.
    change (Faces (grid (fst (init_ids sd)))) with (Faces (grid sd)).
    rewrite HdF, HcGF, HbF, Hinv, Hfaces. simpl. f_equal.
    + f_equal. apply map_ext_in. intros z Hz.
      rewrite Forall_forall in Hwf. specialize (Hwf z (proj2 (list_elem_of_In _ _) Hz)).
      rewrite Hzf. unfold zone_faces. rewrite HbzH, lookup_app_l by exact Hwf. reflexivity.
    + f_equal. apply map_ext. intros z. symmetry. apply Hzf.
  - exists text, fc, ix. split; [exact Htext |]. split; [exact Hsnd |].
    rewrite HZs, drop_app_length.
    eapply Forall2_impl; [exact Hblocks |].
    intros z fi Hz. unfold zone_of_lines in *. rewrite Hzf.
    eapply Forall2_impl; [exact Hz |]. intros fh line Hfh. simpl in Hfh.
    rewrite Hids. exact Hfh.
Qed.

(** ** The three node matchers *)

(** The fuel of the two binary searches is enough: the interval shrinks at
    every step, so any fuel above its width gives the same position. *)
Lemma lower_bound_fuel s store c : forall fuel fuel' lo hi,
  (hi - lo < fuel)%nat -> (hi - lo < fuel')%nat ->
  lower_bound fuel s store c lo hi = lower_bound fuel' s store c lo hi.
Proof.
  induction fuel as [|k IH]; intros fuel' lo hi H H'; [lia |].
  destruct fuel' as [|k']; [lia |]. cbn [lower_bound landing].
  destruct (lo <? hi)%nat eqn:E; [| reflexivity]. apply Nat.ltb_lt in E.
  pose proof (Nat.div_mod_eq (lo + hi)%nat 2%nat) as Hdiv.
  pose proof (Nat.mod_upper_bound (lo + hi)%nat 2%nat ltac:(lia)) as Hmod.
  destruct (store !! ((lo + hi) / 2)%nat); [| reflexivity].
  destruct (x_less s n c); apply IH; lia.
Qed.

Lemma landing_fuel s store c : forall fuel fuel' lo hi,
  (hi - lo < fuel)%nat -> (hi - lo < fuel')%nat ->
  landing fuel s store c lo hi = landing fuel' s store c lo hi.
Proof.
  induction fuel as [|k IH]; intros fuel' lo hi H H'; [lia |].
  destruct fuel' as [|k']; [lia |]. cbn [lower_bound landing].
  destruct (lo <? hi)%nat eqn:E; [| reflexivity]. apply Nat.ltb_lt in E.
  pose proof (Nat.div_mod_eq (lo + hi)%nat 2%nat) as Hdiv.
  pose proof (Nat.mod_upper_bound (lo + hi)%nat 2%nat ltac:(lia)) as Hmod.
  destruct (store !! ((lo + hi) / 2)%nat); [| reflexivity].
  destruct (x_equal s c n); [reflexivity |].
  destruct (x_less s n c); apply IH; lia.
Qed.

Lemma linear_ok : find_or_insert_ok find_or_insert_linear.
Proof.
  intros c s. unfold find_or_insert_linear.
  destruct (List.find _ _) as [m|] eqn:E.
  - left. exists m. apply find_some in E as [Hin Hsame].
    split; [reflexivity |]. split; [apply list_elem_of_In, Hin | exact Hsame].
  - right. exists (Nodes (grid s) ++ [c]). split; [reflexivity |].
    symmetry. apply Permutation_cons_append.
Qed.

Lemma scan_run_Some s c run m :
  scan_run s c run = Some m -> m ∈ run /\ same_xy s c m = true.
Proof.
  induction run as [|n run IH]; simpl; [discriminate |].
  destruct (x_equal s c n) eqn:Ex; [| discriminate].
  destruct (y_equal s c n) eqn:Ey.
  - intros [= <-]. split; [left |]. unfold same_xy. rewrite Ex, Ey. reflexivity.
  - intros H. destruct (IH H) as [Hin Hsame]. split; [right; exact Hin | exact Hsame].
Qed.

Lemma insert_at_perm pos c store : insert_at pos c store ≡ₚ c :: store.
Proof.
  unfold insert_at. rewrite <- Permutation_middle, take_drop. reflexivity.
Qed.

Lemma one_sided_ok : find_or_insert_ok find_or_insert_1_sided.
Proof.
  intros c s. unfold find_or_insert_1_sided. cbv zeta.
  destruct (scan_run _ _ _) as [m|] eqn:E.
  - left. exists m. apply scan_run_Some in E as [Hin Hsame].
    split; [reflexivity |]. split; [| exact Hsame].
    apply list_elem_of_lookup in Hin as [k Hk]. rewrite lookup_drop in Hk.
    apply list_elem_of_lookup. eauto.
  - right. eexists. split; [reflexivity | apply insert_at_perm].
Qed.

Lemma two_sided_ok : find_or_insert_ok find_or_insert_2_sided.
Proof.
  intros c s. unfold find_or_insert_2_sided. cbv zeta.
  match goal with |- context [match ?h with Some _ => _ | None => _ end] =>
    destruct h as [m|] eqn:E end.
  - left. exists m. split; [reflexivity |].
    destruct (landing _ _ _ _ _ _) as [p|]; [| discriminate].
    destruct (scan_run s c (rev _)) as [m'|] eqn:El.
    + injection E as ->. apply scan_run_Some in El as [Hin Hsame]. split; [| exact Hsame].
      apply list_elem_of_In, in_rev, list_elem_of_In in Hin.
      apply list_elem_of_lookup in Hin as [k Hk].
      apply lookup_take_Some in Hk as [Hk _]. apply list_elem_of_lookup. eauto.
    + apply scan_run_Some in E as [Hin Hsame]. split; [| exact Hsame].
      apply list_elem_of_lookup in Hin as [k Hk]. rewrite lookup_drop in Hk.
      apply list_elem_of_lookup. eauto.
  - right. eexists. split; [reflexivity | apply insert_at_perm].
Qed.

Lemma resolve_from_all_new (matcher : handle -> M handle) nodes l :
  find_or_insert_ok matcher ->
  forall i s,
    (forall c m, c ∈ l -> m ∈ Nodes (grid s) -> same_xy s c m = false) ->
    (forall j k a b, j <> k -> l !! j = Some a -> l !! k = Some b -> same_xy s a b = false) ->
    Nodes (grid (fst (resolve_from matcher nodes i l s))) ≡ₚ l ++ Nodes (grid s)
    /\ nodeH (fst (resolve_from matcher nodes i l s)) = nodeH s
    /\ snd (resolve_from matcher nodes i l s) = inr tt.
Proof.
  intros Hok. induction l as [|c l IH]; intros i s Hstore Hdistinct.
  - simpl. auto.
  - cbn [resolve_from]. rewrite bind_run.
    destruct (Hok c s) as [(m & Hm & Hin & Hsame) | (l' & Hm & Hperm)].
    + rewrite (Hstore c m (list_elem_of_here _ _) Hin) in Hsame. discriminate.
    + rewrite Hm. cbn [fst snd]. rewrite bind_run. cbn [fst snd modify].
      match goal with |- context [resolve_from matcher nodes (S i) l ?st] =>
        destruct (IH (S i) st) as (Hp & Hn & Hr) end.
      * intros c' m Hc' Hm'. change (same_xy s c' m = false).
        change (m ∈ l') in Hm'. rewrite Hperm in Hm'.
        apply elem_of_cons in Hm' as [->|Hm'].
        -- apply list_elem_of_lookup in Hc' as [k Hk].
           apply (Hdistinct (S k) 0%nat c' c); [lia | exact Hk | reflexivity].
        -- apply Hstore; [right; exact Hc' | exact Hm'].
      * intros j k a b Hjk Ha Hb. change (same_xy s a b = false).
        apply (Hdistinct (S j) (S k) a b); [lia | exact Ha | exact Hb].
      * split; [| split; [exact Hn | exact Hr]].
        rewrite Hp. change (l ++ l' ≡ₚ (c :: l) ++ Nodes (grid s)).
        rewrite Hperm. simpl. symmetry. apply Permutation_middle.
Qed.

Lemma resolve_zone_all_new (matcher : handle -> M handle) nodes s :
  find_or_insert_ok matcher ->
  Nodes (grid s) = [] ->
  (forall j k a b, j <> k -> list_at s nodes !! j = Some a -> list_at s nodes !! k = Some b ->
                   same_xy s a b = false) ->
  Nodes (grid (fst (resolve_zone matcher nodes s))) ≡ₚ list_at s nodes
  /\ nodeH (fst (resolve_zone matcher nodes s)) = nodeH s
  /\ snd (resolve_zone matcher nodes s) = inr tt.
Proof.
  intros Hok Hempty Hdistinct. unfold resolve_zone. rewrite bind_run. cbn [fst snd gets].
  destruct (resolve_from_all_new matcher nodes (list_at s nodes) Hok 0%nat s) as (Hp & Hn & Hr).
  - intros c m _ Hm. rewrite Hempty in Hm. inversion Hm.
  - exact Hdistinct.
  - rewrite Hempty, app_nil_r in Hp. auto.
Qed.

(** With one of the three names, [set_nodes] on one zone runs the matcher of
    that name. *)
Lemma set_nodes_single nodes algorithm s :
  algorithm ∈ known_algorithms ->
  exists matcher,
    find_or_insert_ok matcher
    /\ set_nodes [nodes] algorithm s =
         (fst (resolve_zone matcher nodes s),
          match snd (resolve_zone matcher nodes s) with inr _ => inr tt | inl e => inl e end).
Proof.
  intros Halg. apply list_elem_of_In in Halg. simpl in Halg.
  destruct Halg as [<-|[<-|[<-|[]]]];
    [exists find_or_insert_linear | exists find_or_insert_1_sided
     | exists find_or_insert_2_sided];
    (split; [first [apply linear_ok | apply one_sided_ok | apply two_sided_ok] |]);
    unfold set_nodes, n_square, dichotomy_1_sided, dichotomy_2_sided; cbn [for_each String.eqb Ascii.eqb Bool.eqb];
    rewrite !bind_run; cbn [fst snd ret];
    match goal with |- context [resolve_zone ?m nodes s] =>
      destruct (resolve_zone m nodes s) as [t [e|[]]] end; reflexivity.
Qed.

(** C2. On an empty canonical store and a zone none of whose nodes equals
    another in both coordinates, the three algorithms end with the same
    canonical nodes up to order (every node of the zone, none discarded),
    hence with the same set of (x, y) pairs. *)
Theorem strategies_agree (nodes : handle) (s : state) :
  Nodes (grid s) = [] ->
  (forall j k a b, j <> k -> list_at s nodes !! j = Some a -> list_at s nodes !! k = Some b ->
                   same_xy s a b = false) ->
  forall a1 a2, a1 ∈ known_algorithms -> a2 ∈ known_algorithms ->
    snd (set_nodes [nodes] a1 s) = inr tt
    /\ Nodes (grid (fst (set_nodes [nodes] a1 s))) ≡ₚ Nodes (grid (fst (set_nodes [nodes] a2 s)))
    /\ forall xy, xy ∈ canonical_xy (fst (set_nodes [nodes] a1 s))
                  <-> xy ∈ canonical_xy (fst (set_nodes [nodes] a2 s)).
Proof.
  intros Hempty Hdistinct a1 a2 H1 H2.
  destruct (set_nodes_single nodes a1 s H1) as (m1 & Hok1 & ->).
  destruct (set_nodes_single nodes a2 s H2) as (m2 & Hok2 & ->).
  destruct (resolve_zone_all_new m1 nodes s Hok1 Hempty Hdistinct) as (Hp1 & Hn1 & ->).
  destruct (resolve_zone_all_new m2 nodes s Hok2 Hempty Hdistinct) as (Hp2 & Hn2 & _).
  cbn [fst snd]. split; [reflexivity |].
  assert (Hp : Nodes (grid (fst (resolve_zone m1 nodes s)))
               ≡ₚ Nodes (grid (fst (resolve_zone m2 nodes s))))
    by (rewrite Hp1, Hp2; reflexivity).
  split; [exact Hp |].
  intros xy. unfold canonical_xy. rewrite Hn1, Hn2, Hp. reflexivity.
Qed.

(** ** The topology invariant *)

Lemma same_links_refl s : same_links s s.
Proof. split; reflexivity. Qed.

Lemma same_links_trans s t u : same_links s t -> same_links t u -> same_links s u.
Proof.
  intros [A1 A2 A3 A4 A5 A6] [B1 B2 B3 B4 B5 B6].
  split; intros; congruence.
Qed.

Lemma joined_same_links s t f a b : same_links s t -> joined s f a b -> joined t f a b.
Proof.
  intros [_ H2 H3 _ _ H6] [Heq | (e & He & Hc & Hf)]; [left; exact Heq | right].
  exists e. unfold connects in *. rewrite H2, H3, H6. auto.
Qed.

Lemma topology_same_links s t :
  topology_ok s -> same_links s t ->
  (forall r n, n ∈ list_at t r -> (n < length (nodeH t))%nat) ->
  (forall n, n ∈ Nodes (grid t) -> (n < length (nodeH t))%nat) ->
  topology_ok t.
Proof.
  intros [[O1 O2 O3 O4 _ _] O5] Hsl HL HS.
  pose proof Hsl as [H1 H2 H3 H4 H5 H6]. split; [split |].
  - rewrite H5, H6. exact O1.
  - intros e He. rewrite H6 in He. destruct (O2 e He) as (a & b & Hn & Ha & Hb).
    exists a, b. rewrite H2, !H1. auto.
  - intros n e. rewrite H1, H2. apply O3.
  - intros e1 e2 a b. unfold connects. rewrite !H2. apply O4.
  - exact HL.
  - exact HS.
  - intros f. destruct (O5 f) as [Hnil | (a & b & c & Hn & J1 & J2 & J3)].
    + left. rewrite H4. exact Hnil.
    + right. exists a, b, c. rewrite H4.
      split; [exact Hn |]. repeat split; eapply joined_same_links; eassumption.
Qed.

Lemma topology_init fs : topology_ok (init_state fs).
Proof.
  split; [split |]; simpl; try reflexivity.
  - intros e He. lia.
  - intros n e H. inversion H.
  - intros e1 e2 a b [H|H] _; discriminate H.
  - intros r n H. inversion H.
  - intros n H. inversion H.
  - intros f. left. reflexivity.
Qed.

(** Appending objects without links to an arena leaves every view as it
    was: a handle that was not allocated read as the empty list already. *)
Lemma view_app {A B} (p : A -> list B) (h new : list A) (k : nat) :
  Forall (fun a => p a = []) new ->
  default [] (p <$> (h ++ new) !! k) = default [] (p <$> h !! k).
Proof.
  intros Hnew. destruct (decide (k < length h)%nat) as [Hk|Hk].
  - rewrite lookup_app_l by exact Hk. reflexivity.
  - rewrite lookup_app_r by lia. rewrite (lookup_ge_None_2 h k) by lia. simpl.
    destruct (new !! (k - length h)%nat) as [a|] eqn:E; [| reflexivity].
    simpl. apply (Forall_lookup_1 _ _ _ _ Hnew E).
Qed.

Lemma view_alter {A B} (p : A -> B) (g : A -> A) (h : list A) (i k : nat) :
  (forall a, p (g a) = p a) -> p <$> alter g i h !! k = p <$> h !! k.
Proof.
  intros Hp. destruct (decide (i = k)) as [->|Hne].
  - rewrite list_lookup_alter_eq. destruct (h !! k); simpl; [rewrite Hp |]; reflexivity.
  - rewrite list_lookup_alter_ne by exact Hne. reflexivity.
Qed.

(** *** The phases that create no link *)

Lemma zone_added_topology lines fi s s3 r fs :
  zone_added lines fi s s3 r fs ->
  topology_ok s -> topology_ok s3 /\ same_links s s3.
Proof.
  intros Hadd Hok.
  apply zone_added_facts in Hadd
    as (newf & newn & Hf & Hn & _ & _ & _ & HF & HN & HL & HE & HG & _ & _).
  assert (Hsl : same_links s s3).
  { split.
    - intros n. unfold edges_of. rewrite HN. apply (view_app node_edges).
      eapply Forall_impl; [exact Hn |]. intros N [H _]. exact H.
    - intros e. unfold nodes_of_edge. rewrite HE. reflexivity.
    - intros e. unfold faces_of_edge. rewrite HE. reflexivity.
    - intros f. unfold nodes_of_face. rewrite HF. apply (view_app face_nodes).
      apply Forall2_Forall_r with (1 := Hf). apply Forall_true. intros line F (_ & H & _). exact H.
    - rewrite HG. reflexivity.
    - rewrite HE. reflexivity. }
  split; [| exact Hsl].
  destruct Hok as [Hed Hfa]. apply (topology_same_links s); [split; assumption | exact Hsl | |].
  - intros r' n Hin. unfold list_at in Hin. rewrite HL in Hin. rewrite HN, length_app.
    destruct (decide (r' < length (listH s))%nat) as [Hr|Hr].
    + rewrite lookup_app_l in Hin by exact Hr.
      pose proof (ok_lists s Hed r' n Hin). lia.
    + rewrite lookup_app_r in Hin by lia.
      destruct (r' - length (listH s))%nat as [|[|k]]; simpl in Hin.
      * inversion Hin.
      * apply list_elem_of_In, in_seq in Hin. lia.
      * inversion Hin.
  - intros n Hin. rewrite HG in Hin. simpl in Hin. rewrite HN, length_app.
    pose proof (ok_store s Hed n Hin). lia.
Qed.

(** The zone loop creates no link; the face lists it returns are the new
    faces, in order of creation. *)
Lemma read_zones_topology lines zs : forall nodes faces s s' nodes' faces',
  read_zones lines zs nodes faces s = (s', inr (nodes', faces')) ->
  topology_ok s ->
  topology_ok s' /\ same_links s s'
  /\ exists k, concat faces' = concat faces ++ seq (length (faceH s)) k.
Proof.
  induction zs as [|[f i] zs IH]; intros nodes faces s s' nodes' faces' Hrun Hok.
  - injection Hrun as <- <- <-. split; [exact Hok |]. split; [apply same_links_refl |].
    exists 0%nat. simpl. rewrite app_nil_r. reflexivity.
  - apply read_zones_step in Hrun as (s3 & r & fs & Hadd & Hrun).
    destruct (zone_added_topology _ _ _ _ _ _ Hadd Hok) as [Hok3 Hsl3].
    apply zone_added_facts in Hadd
      as (newf & newn & _ & _ & Hfs & _ & _ & HF & _).
    destruct (IH _ _ _ _ _ _ Hrun Hok3) as (Hok' & Hsl' & k & Hk).
    split; [exact Hok' |]. split; [eapply same_links_trans; eassumption |].
    exists (length newf + k)%nat.
    rewrite Hk, concat_app, HF, length_app, Hfs. simpl. rewrite app_nil_r, <- app_assoc.
    rewrite seq_app. reflexivity.
Qed.

Lemma same_links_arenas s t :
  nodeH t = nodeH s -> faceH t = faceH s -> edgeH t = edgeH s ->
  Edges (grid t) = Edges (grid s) -> same_links s t.
Proof.
  intros HN HF HE HG.
  split; intros; unfold edges_of, nodes_of_edge, faces_of_edge, nodes_of_face;
    rewrite ?HN, ?HF, ?HE, ?HG; reflexivity.
Qed.

Lemma resolve_from_topology (matcher : handle -> M handle) nodes l :
  find_or_insert_ok matcher ->
  forall i t,
    topology_ok t ->
    (forall c, c ∈ l -> (c < length (nodeH t))%nat) ->
    topology_ok (fst (resolve_from matcher nodes i l t))
    /\ same_links t (fst (resolve_from matcher nodes i l t)).
Proof.
  intros Hok. induction l as [|c l IH]; intros i t Ht Hl.
  - simpl. split; [exact Ht | apply same_links_refl].
  - cbn [resolve_from]. rewrite bind_run.
    assert (Hstep : exists t1 m,
               matcher c t = (t1, inr m) /\ nodeH t1 = nodeH t /\ faceH t1 = faceH t
               /\ edgeH t1 = edgeH t /\ Edges (grid t1) = Edges (grid t)
               /\ listH t1 = listH t
               /\ (m < length (nodeH t))%nat
               /\ forall n, n ∈ Nodes (grid t1) -> (n < length (nodeH t))%nat).
    { destruct Ht as [Hed _].
      destruct (Hok c t) as [(m & Hm & Hin & _) | (l' & Hm & Hperm)].
      - exists t, m. repeat split; try assumption. apply (ok_store t Hed m Hin).
        apply (ok_store t Hed).
      - exists (upd_grid (set_Nodes l') t), c. repeat split; try assumption.
        + apply Hl. left.
        + intros n Hn. change (n ∈ l') in Hn. rewrite Hperm in Hn.
          apply elem_of_cons in Hn as [->|Hn]; [apply Hl; left | apply (ok_store t Hed n Hn)]. }
    destruct Hstep as (t1 & m & Hm & HN & HF & HE & HG & HL & Hmv & Hstore).
    rewrite Hm. cbn [fst snd]. rewrite bind_run. cbn [fst snd modify].
    set (t2 := upd_listH (alter (fun z => <[i:=m]> z) nodes) t1).
    assert (Hsl : same_links t t2) by (apply same_links_arenas; assumption).
    assert (Ht2 : topology_ok t2).
    { apply (topology_same_links t); [exact Ht | exact Hsl | |].
      - intros r n Hin. change (nodeH t2) with (nodeH t1). rewrite HN.
        unfold list_at, t2 in Hin. cbn [listH upd_listH] in Hin. rewrite HL in Hin.
        destruct Ht as [Hed _].
        destruct (decide (nodes = r)) as [->|Hne].
        + rewrite list_lookup_alter_eq in Hin.
          destruct (listH t !! r) as [old|] eqn:Eold; simpl in Hin; [| inversion Hin].
          assert (Hold : Forall (fun n => (n < length (nodeH t))%nat) old).
          { apply Forall_forall. intros n' Hn'. apply (ok_lists t Hed r).
            unfold list_at. rewrite Eold. exact Hn'. }
          pose proof (Forall_insert _ old i m Hold Hmv) as Hnew.
          rewrite Forall_forall in Hnew. apply Hnew, Hin.
        + rewrite list_lookup_alter_ne in Hin by exact Hne. apply (ok_lists t Hed r n Hin).
      - intros n Hin. change (nodeH t2) with (nodeH t1). rewrite HN. apply Hstore, Hin. }
    destruct (IH (S i) t2 Ht2) as [Hok' Hsl'].
    { intros c' Hc'. change (nodeH t2) with (nodeH t1). rewrite HN. apply Hl. right. exact Hc'. }
    split; [exact Hok' | eapply same_links_trans; eassumption].
Qed.

(** [set_nodes] creates no link. *)
Lemma set_nodes_topology nodes algorithm s :
  topology_ok s ->
  topology_ok (fst (set_nodes nodes algorithm s))
  /\ same_links s (fst (set_nodes nodes algorithm s)).
Proof.
  intros Hs.
  assert (Hzone : forall matcher r, find_or_insert_ok matcher ->
            keeps (fun t => topology_ok t /\ same_links s t) (resolve_zone matcher r)).
  { intros matcher r Hok t [Ht Hsl]. unfold resolve_zone. rewrite bind_run. cbn [fst snd gets].
    destruct (resolve_from_topology matcher r (list_at t r) Hok 0%nat t Ht) as [Ht' Hsl'].
    - intros c Hc. destruct Ht as [Hed _]. apply (ok_lists t Hed r c Hc).
    - split; [exact Ht' | eapply same_links_trans; eassumption]. }
  assert (Hk : keeps (fun t => topology_ok t /\ same_links s t) (set_nodes nodes algorithm)).
  { unfold set_nodes. apply keeps_for_each; intros n _.
    apply keeps_bind; [| intros _; apply keeps_bind; [| intros _]];
      (apply keeps_if; [| apply keeps_ret]); apply Hzone;
      [apply linear_ok | apply one_sided_ok | apply two_sided_ok]. }
  exact (Hk s (conj Hs (same_links_refl s))).
Qed.

Lemma length_number_from {A} (set_id : nat -> A -> A) l : forall i h,
  length (number_from set_id i l h) = length h.
Proof.
  induction l as [|o l IH]; intros i h; simpl; [reflexivity |].
  rewrite IH. apply length_alter.
Qed.

(** Numbering creates no link. *)
Lemma init_ids_topology s :
  topology_ok s -> topology_ok (fst (init_ids s)) /\ same_links s (fst (init_ids s)).
Proof.
  intros Hs.
  assert (Hsl : same_links s (fst (init_ids s))).
  { split; intros; unfold edges_of, nodes_of_edge, faces_of_edge, nodes_of_face; simpl;
      rewrite ?number_from_lookup, ?length_number_from; reflexivity. }
  split; [| exact Hsl]. destruct Hs as [Hed Hfa].
  apply (topology_same_links s); [split; assumption | exact Hsl | |].
  - intros r n Hin. simpl. rewrite length_number_from. apply (ok_lists s Hed r n Hin).
  - intros n Hin. simpl. rewrite length_number_from. apply (ok_store s Hed n Hin).
Qed.

(** *** Linking a face *)

Lemma edges_ok_transfer s t :
  edges_ok s ->
  (forall n, edges_of t n = edges_of s n) ->
  (forall e, nodes_of_edge t e = nodes_of_edge s e) ->
  length (edgeH t) = length (edgeH s) -> Edges (grid t) = Edges (grid s) ->
  listH t = listH s -> Nodes (grid t) = Nodes (grid s) ->
  length (nodeH t) = length (nodeH s) ->
  edges_ok t.
Proof.
  intros [O1 O2 O3 O4 O5 O6] Hn He HE HG HL HS HN. split.
  - rewrite HG, HE. exact O1.
  - intros e Hlt. rewrite HE in Hlt. destruct (O2 e Hlt) as (a & b & H & Ha & Hb).
    exists a, b. rewrite He, !Hn. auto.
  - intros n e. rewrite He, Hn. apply O3.
  - intros e1 e2 a b. unfold connects. rewrite !He. apply O4.
  - intros r n. unfold list_at. rewrite HL, HN. apply O5.
  - intros n. rewrite HS, HN. apply O6.
Qed.

Lemma joined_transfer s t f a b :
  edgeH t = edgeH s -> joined s f a b -> joined t f a b.
Proof.
  intros HE. unfold joined, connects, nodes_of_edge, faces_of_edge. rewrite HE. tauto.
Qed.

(** [link_face_and_node] touches no edge; the face gets the node as its
    next node. *)
Lemma link_face_and_node_views f n s :
  let t := fst (link_face_and_node f n s) in
  (forall n', edges_of t n' = edges_of s n')
  /\ edgeH t = edgeH s /\ grid t = grid s /\ listH t = listH s
  /\ length (nodeH t) = length (nodeH s)
  /\ length (faceH t) = length (faceH s)
  /\ (forall f', f' <> f -> nodes_of_face t f' = nodes_of_face s f')
  /\ nodes_of_face t f
     = if decide (f < length (faceH s))%nat then nodes_of_face s f ++ [n] else [].
Proof.
  cbn zeta. repeat split.
  - intros n'. unfold edges_of. cbn [link_face_and_node modify fst nodeH upd_nodeH upd_faceH].
    apply f_equal. apply (view_alter node_edges). reflexivity.
  - cbn [link_face_and_node modify fst nodeH upd_nodeH upd_faceH]. apply length_alter.
  - cbn [link_face_and_node modify fst faceH upd_nodeH upd_faceH]. apply length_alter.
  - intros f' Hne. unfold nodes_of_face.
    cbn [link_face_and_node modify fst faceH upd_nodeH upd_faceH].
    rewrite list_lookup_alter_ne by congruence. reflexivity.
  - unfold nodes_of_face. cbn [link_face_and_node modify fst faceH upd_nodeH upd_faceH].
    rewrite list_lookup_alter_eq. case_decide as Hf.
    + destruct (lookup_lt_is_Some_2 _ _ Hf) as [F ->]. reflexivity.
    + rewrite lookup_ge_None_2 by lia. reflexivity.
Qed.

(** [link_face_and_edge] changes no end of any edge and no node of any face;
    the face is added to the faces of the edge. *)
Lemma link_face_and_edge_views f e s :
  let t := fst (link_face_and_edge f e s) in
  nodeH t = nodeH s /\ grid t = grid s /\ listH t = listH s
  /\ length (edgeH t) = length (edgeH s)
  /\ length (faceH t) = length (faceH s)
  /\ (forall e', nodes_of_edge t e' = nodes_of_edge s e')
  /\ (forall f', nodes_of_face t f' = nodes_of_face s f')
  /\ (forall e' x, x ∈ faces_of_edge s e' -> x ∈ faces_of_edge t e')
  /\ ((e < length (edgeH s))%nat -> f ∈ faces_of_edge t e).
Proof.
  cbn zeta. repeat split.
  - cbn [link_face_and_edge modify fst edgeH upd_edgeH upd_faceH]. apply length_alter.
  - cbn [link_face_and_edge modify fst faceH upd_edgeH upd_faceH]. apply length_alter.
  - intros e'. unfold nodes_of_edge.
    cbn [link_face_and_edge modify fst edgeH upd_edgeH upd_faceH].
    apply f_equal. apply (view_alter edge_nodes). reflexivity.
  - intros f'. unfold nodes_of_face.
    cbn [link_face_and_edge modify fst faceH upd_edgeH upd_faceH].
    apply f_equal. apply (view_alter face_nodes). reflexivity.
  - intros e' x. unfold faces_of_edge.
    cbn [link_face_and_edge modify fst edgeH upd_edgeH upd_faceH].
    destruct (decide (e = e')) as [->|Hne].
    + rewrite list_lookup_alter_eq. destruct (edgeH s !! e') as [E|]; simpl; [| tauto].
      intros Hx. apply elem_of_app. left. exact Hx.
    + rewrite list_lookup_alter_ne by exact Hne. tauto.
  - intros He. unfold faces_of_edge.
    cbn [link_face_and_edge modify fst edgeH upd_edgeH upd_faceH].
    rewrite list_lookup_alter_eq. destruct (lookup_lt_is_Some_2 _ _ He) as [E ->]. simpl.
    apply elem_of_app. right. left.
Qed.

Lemma attach_edge_cases f a b s :
  (exists e, e ∈ edges_of s a /\ e ∈ edges_of s b
             /\ attach_edge f a b s = link_face_and_edge f e s)
  \/ ((forall e, e ∈ edges_of s a -> e ∉ edges_of s b)
      /\ attach_edge f a b s = (add_edge f a b s, inr tt)).
Proof.
  unfold attach_edge. rewrite bind_run. cbn [is_edge_present gets fst snd].
  destruct (List.find _ _) as [e|] eqn:E.
  - left. exists e. apply find_some in E as [Hin Hb].
    apply bool_decide_eq_true in Hb. split; [apply list_elem_of_In, Hin |]. auto.
  - right. split; [| reflexivity].
    intros e He Hb. apply list_elem_of_In in He.
    pose proof (find_none _ _ E e He) as Hf. cbn beta in Hf.
    apply bool_decide_eq_false in Hf. contradiction.
Qed.

Lemma edges_of_added (h : list Node) (x e0 n e : handle) :
  (x < length h)%nat ->
  e ∈ default [] (node_edges <$>
        alter (fun N => mkNode (node_x N) (node_y N) (node_edges N ++ [e0])
                               (node_faces N) (node_id N)) x h !! n)
  <-> e ∈ default [] (node_edges <$> h !! n) \/ (e = e0 /\ n = x).
Proof.
  intros Hx. destruct (decide (x = n)) as [->|Hne].
  - rewrite list_lookup_alter_eq. destruct (lookup_lt_is_Some_2 _ _ Hx) as [N ->]. simpl.
    rewrite elem_of_app, list_elem_of_singleton. tauto.
  - rewrite list_lookup_alter_ne by exact Hne. split; [tauto |].
    intros [H|[_ H]]; [exact H | congruence].
Qed.

Lemma add_edge_views f a b s :
  (a < length (nodeH s))%nat -> (b < length (nodeH s))%nat ->
  let t := add_edge f a b s in
  edgeH t = edgeH s ++ [mkEdge [a; b] [f] None]
  /\ (forall n e, e ∈ edges_of t n <->
                  e ∈ edges_of s n \/ (e = length (edgeH s) /\ (n = a \/ n = b)))
  /\ (forall f', nodes_of_face t f' = nodes_of_face s f')
  /\ length (nodeH t) = length (nodeH s)
  /\ length (faceH t) = length (faceH s)
  /\ listH t = listH s
  /\ Nodes (grid t) = Nodes (grid s)
  /\ Edges (grid t) = Edges (grid s) ++ [length (edgeH s)].
Proof.
  intros Ha Hb. cbn zeta. repeat split.
  - unfold add_edge.
    cbn [edgeH upd_grid link_node_and_edge link_face_and_edge new_edge modify fst
         upd_edgeH upd_nodeH upd_faceH].
    rewrite <- (Nat.add_0_r (length (edgeH s))), !alter_app_r. reflexivity.
  - unfold edges_of, add_edge.
    cbn [nodeH upd_grid link_node_and_edge link_face_and_edge new_edge modify fst
         upd_edgeH upd_nodeH upd_faceH].
    intros H. apply edges_of_added in H; [| rewrite length_alter; exact Hb].
    destruct H as [H|[-> ->]]; [| auto].
    apply edges_of_added in H; [| exact Ha]. destruct H as [H|[-> ->]]; auto.
  - unfold edges_of, add_edge.
    cbn [nodeH upd_grid link_node_and_edge link_face_and_edge new_edge modify fst
         upd_edgeH upd_nodeH upd_faceH].
    intros H. apply edges_of_added; [rewrite length_alter; exact Hb |].
    rewrite edges_of_added by exact Ha. tauto.
  - intros f'. unfold nodes_of_face, add_edge.
    cbn [faceH upd_grid link_node_and_edge link_face_and_edge new_edge modify fst
         upd_edgeH upd_nodeH upd_faceH].
    apply f_equal. apply (view_alter face_nodes). reflexivity.
  - unfold add_edge.
    cbn [nodeH upd_grid link_node_and_edge link_face_and_edge new_edge modify fst
         upd_edgeH upd_nodeH upd_faceH].
    rewrite !length_alter. reflexivity.
  - unfold add_edge.
    cbn [faceH upd_grid link_node_and_edge link_face_and_edge new_edge modify fst
         upd_edgeH upd_nodeH upd_faceH].
    rewrite length_alter. reflexivity.
Qed.

Lemma nodes_of_edge_allocated s e n : n ∈ nodes_of_edge s e -> (e < length (edgeH s))%nat.
Proof.
  unfold nodes_of_edge. intros H. destruct (edgeH s !! e) as [E|] eqn:HE.
  - apply lookup_lt_Some in HE. exact HE.
  - inversion H.
Qed.

Lemma connects_allocated s e a b : connects s e a b -> (e < length (edgeH s))%nat.
Proof.
  intros [H|H]; apply (nodes_of_edge_allocated s e a); rewrite H;
    [left | right; left].
Qed.

Lemma ends_cases (p q a b : handle) :
  a ∈ [p; q] -> b ∈ [p; q] -> a <> b -> [p; q] = [a; b] \/ [p; q] = [b; a].
Proof.
  intros Ha Hb Hne. apply list_elem_of_In in Ha, Hb. simpl in Ha, Hb.
  destruct Ha as [->|[->|[]]], Hb as [->|[->|[]]]; auto; congruence.
Qed.

(** [attach_edge] keeps the edges of the grid well formed, joins the face to
    the edge between the two nodes, and undoes nothing. *)
Lemma attach_edge_spec f a b s :
  edges_ok s -> (a < length (nodeH s))%nat -> (b < length (nodeH s))%nat ->
  let t := fst (attach_edge f a b s) in
  edges_ok t /\ joined t f a b
  /\ (forall f' a' b', joined s f' a' b' -> joined t f' a' b')
  /\ (forall f', nodes_of_face t f' = nodes_of_face s f')
  /\ length (nodeH t) = length (nodeH s)
  /\ length (faceH t) = length (faceH s).
Proof.
  intros Hok Ha Hb. cbn zeta.
  destruct (attach_edge_cases f a b s) as [(e & Hea & Heb & ->) | (Hnone & ->)].
  - (* an edge is there *)
    destruct (link_face_and_edge_views f e s)
      as (HN & HG & HL & HlE & HlF & Hne & Hnf & Hmono & Hf).
    cbn zeta in *. set (t := fst (link_face_and_edge f e s)) in *.
    assert (He : (e < length (edgeH s))%nat)
      by (apply (nodes_of_edge_allocated s e a), (ok_incident s Hok), Hea).
    split; [| split; [| split; [| split; [| split]]]].
    + apply (edges_ok_transfer s); try assumption; try (rewrite ?HG, ?HN; reflexivity);
        intros n; unfold edges_of; rewrite HN; reflexivity.
    + destruct (decide (a = b)) as [Hab|Hab]; [left; exact Hab | right].
      exists e. split; [rewrite HlE; exact He |]. split; [| apply Hf, He].
      destruct (ok_ends s Hok e He) as (p & q & Hpq & _ & _).
      unfold connects. rewrite Hne, Hpq. apply ends_cases; [| | exact Hab].
      * rewrite <- Hpq. apply (ok_incident s Hok), Hea.
      * rewrite <- Hpq. apply (ok_incident s Hok), Heb.
    + intros f' a' b' [Heq | (e' & He' & Hc & Hf')]; [left; exact Heq | right].
      exists e'. split; [rewrite HlE; exact He' |]. split; [| apply Hmono, Hf'].
      unfold connects in *. rewrite !Hne. exact Hc.
    + exact Hnf.
    + rewrite HN. reflexivity.
    + exact HlF.
  - (* a new edge *)
    destruct (add_edge_views f a b s Ha Hb) as (HE & Heo & Hnf & HlN & HlF & HL & HS & HG).
    cbn zeta in *. cbn [fst]. set (t := add_edge f a b s) in *.
    set (e0 := length (edgeH s)) in *.
    assert (Hold : forall e, e <> e0 -> nodes_of_edge t e = nodes_of_edge s e
                                        /\ faces_of_edge t e = faces_of_edge s e).
    { intros e Hne. unfold nodes_of_edge, faces_of_edge. rewrite HE.
      destruct (decide (e < e0)%nat) as [Hlt|Hge].
      - rewrite lookup_app_l by exact Hlt. auto.
      - rewrite !lookup_ge_None_2; [auto | unfold e0 in *; lia |].
        rewrite length_app. simpl. unfold e0 in *. lia. }
    assert (Hnew : nodes_of_edge t e0 = [a; b] /\ faces_of_edge t e0 = [f]).
    { unfold nodes_of_edge, faces_of_edge. rewrite HE, lookup_app_r by (unfold e0; lia).
      unfold e0. rewrite Nat.sub_diag. auto. }
    assert (Hlen : length (edgeH t) = S e0)
      by (rewrite HE, length_app; simpl; unfold e0; lia).
    assert (Hfresh : forall p q e, connects s e p q ->
                       ([p; q] = [a; b] \/ [p; q] = [b; a]) -> False).
    { intros p q e Hc Hpq. pose proof (connects_allocated s e p q Hc) as He.
      destruct (ok_ends s Hok e He) as (x & y & Hxy & Hx & Hy).
      apply (Hnone e).
      - destruct Hc as [Hc|Hc], Hpq as [Hpq|Hpq]; rewrite Hxy in Hc; congruence.
      - destruct Hc as [Hc|Hc], Hpq as [Hpq|Hpq]; rewrite Hxy in Hc; congruence. }
    split; [| split; [| split; [| split; [| split]]]].
    + destruct Hok as [O1 O2 O3 O4 O5 O6]. split.
      * rewrite HG, Hlen, O1, seq_S. reflexivity.
      * intros e He. rewrite Hlen in He. destruct (decide (e = e0)) as [->|Hne].
        -- exists a, b. split; [apply Hnew |]. split; apply Heo; right; auto.
        -- destruct (O2 e) as (p & q & Hpq & Hp & Hq); [unfold e0 in *; lia |].
           exists p, q. rewrite (proj1 (Hold e Hne)). split; [exact Hpq |].
           split; apply Heo; left; assumption.
      * intros n e Hin. apply Heo in Hin as [Hin | [-> Hn]].
        -- pose proof (O3 n e Hin) as Hn.
           pose proof (nodes_of_edge_allocated s e n Hn) as He.
           rewrite (proj1 (Hold e ltac:(unfold e0; lia))). exact Hn.
        -- rewrite (proj1 Hnew). destruct Hn as [->| ->]; [left | right; left].
      * intros e1 e2 p q H1 H2.
        destruct (decide (e1 = e0)) as [->|N1], (decide (e2 = e0)) as [->|N2].
        -- reflexivity.
        -- exfalso. unfold connects in H1, H2.
           rewrite (proj1 Hnew) in H1. rewrite (proj1 (Hold e2 N2)) in H2.
           apply (Hfresh p q e2 H2). destruct H1 as [H1|H1]; injection H1 as <- <-; auto.
        -- exfalso. unfold connects in H1, H2.
           rewrite (proj1 Hnew) in H2. rewrite (proj1 (Hold e1 N1)) in H1.
           apply (Hfresh p q e1 H1). destruct H2 as [H2|H2]; injection H2 as <- <-; auto.
        -- unfold connects in H1, H2.
           rewrite (proj1 (Hold e1 N1)) in H1. rewrite (proj1 (Hold e2 N2)) in H2.
           apply (O4 e1 e2 p q H1 H2).
      * intros r n. unfold list_at. rewrite HL, HlN. apply O5.
      * intros n. rewrite HS, HlN. apply O6.
    + right. exists e0. split; [lia |]. split; [left; apply Hnew |].
      rewrite (proj2 Hnew). left.
    + intros f' a' b' [Heq | (e' & He' & Hc & Hf')]; [left; exact Heq | right].
      assert (Hne : e' <> e0) by (unfold e0; lia).
      exists e'. split; [lia |]. unfold connects. rewrite (proj1 (Hold e' Hne)).
      rewrite (proj2 (Hold e' Hne)). auto.
    + exact Hnf.
    + exact HlN.
    + exact HlF.
Qed.

Lemma py_index_elem {A} (l : list A) (i : Z) (x : A) : py_index l i = Some x -> x ∈ l.
Proof.
  unfold py_index. intros H. apply list_elem_of_lookup.
  destruct (0 <=? i); [eauto |]. destruct (- Z.of_nat (length l) <=? i); [eauto | discriminate].
Qed.

Lemma local_node_of_elem s nodes f k n :
  local_node_of s nodes f k = Some n -> n ∈ list_at s nodes.
Proof.
  unfold local_node_of. destruct (py_index (ids_of_face s f) k); [| discriminate].
  apply py_index_elem.
Qed.

Lemma set_face_cases nodes f s :
  set_face nodes f s = (s, inl IndexError)
  \/ exists n1 n2 n3,
       n1 ∈ list_at s nodes /\ n2 ∈ list_at s nodes /\ n3 ∈ list_at s nodes
       /\ set_face nodes f s = (face_linked f n1 n2 n3 s, inr tt).
Proof.
  unfold set_face.
  rewrite bind_run, (local_node_run nodes f 0). cbn [fst snd].
  destruct (local_node_of s nodes f 0) as [n1|] eqn:E1; [| left; reflexivity].
  rewrite bind_run, (local_node_run nodes f 1). cbn [fst snd].
  destruct (local_node_of s nodes f 1) as [n2|] eqn:E2; [| left; reflexivity].
  rewrite bind_run, (local_node_run nodes f 2). cbn [fst snd].
  destruct (local_node_of s nodes f 2) as [n3|] eqn:E3; [| left; reflexivity].
  right. exists n1, n2, n3.
  repeat (split; [eapply local_node_of_elem; eassumption |]).
  set (s1 := fst (link_face_and_node f n1 s)).
  set (s2 := fst (link_face_and_node f n2 s1)).
  set (s3 := fst (link_face_and_node f n3 s2)).
  rewrite bind_run. change (link_face_and_node f n1 s) with (s1, @inr exn unit tt).
  cbn [fst snd]. rewrite bind_run.
  change (link_face_and_node f n2 s1) with (s2, @inr exn unit tt).
  cbn [fst snd]. rewrite bind_run.
  change (link_face_and_node f n3 s2) with (s3, @inr exn unit tt).
  cbn [fst snd].
  rewrite bind_run, attach_edge_total. rewrite bind_run, attach_edge_total.
  unfold face_linked. fold s1. fold s2. fold s3.
  apply injective_projections; [reflexivity | apply attach_edge_total].
Qed.

Lemma face_linked_topology f n1 n2 n3 s :
  topology_ok s -> nodes_of_face s f = [] ->
  (n1 < length (nodeH s))%nat -> (n2 < length (nodeH s))%nat -> (n3 < length (nodeH s))%nat ->
  let t := face_linked f n1 n2 n3 s in
  topology_ok t /\ (forall f', f' <> f -> nodes_of_face t f' = nodes_of_face s f').
Proof.
  intros [Hed Hfa] Hnil V1 V2 V3. cbn zeta. unfold face_linked.
  destruct (link_face_and_node_views f n1 s) as (A1 & A2 & A3 & A4 & A5 & A6 & A7 & A8).
  cbn zeta in *. set (s1 := fst (link_face_and_node f n1 s)) in *.
  destruct (link_face_and_node_views f n2 s1) as (B1 & B2 & B3 & B4 & B5 & B6 & B7 & B8).
  cbn zeta in *. set (s2 := fst (link_face_and_node f n2 s1)) in *.
  destruct (link_face_and_node_views f n3 s2) as (C1 & C2 & C3 & C4 & C5 & C6 & C7 & C8).
  cbn zeta in *. set (s3 := fst (link_face_and_node f n3 s2)) in *.
  assert (Hed3 : edges_ok s3).
  { apply (edges_ok_transfer s); [exact Hed | | | | | | |].
    - intros n. rewrite C1, B1, A1. reflexivity.
    - intros e. unfold nodes_of_edge. rewrite C2, B2, A2. reflexivity.
    - rewrite C2, B2, A2. reflexivity.
    - rewrite C3, B3, A3. reflexivity.
    - rewrite C4, B4, A4. reflexivity.
    - rewrite C3, B3, A3. reflexivity.
    - rewrite C5, B5, A5. reflexivity. }
  assert (HE3 : edgeH s3 = edgeH s) by (rewrite C2, B2, A2; reflexivity).
  assert (HN3 : length (nodeH s3) = length (nodeH s)) by (rewrite C5, B5, A5; reflexivity).
  destruct (attach_edge_spec f n1 n2 s3 Hed3) as (Hed4 & J4 & M4 & F4 & N4 & _); [lia | lia |].
  cbn zeta in *. set (s4 := fst (attach_edge f n1 n2 s3)) in *.
  destruct (attach_edge_spec f n2 n3 s4 Hed4) as (Hed5 & J5 & M5 & F5 & N5 & _); [lia | lia |].
  cbn zeta in *. set (s5 := fst (attach_edge f n2 n3 s4)) in *.
  destruct (attach_edge_spec f n3 n1 s5 Hed5) as (Hed6 & J6 & M6 & F6 & N6 & _); [lia | lia |].
  cbn zeta in *. set (s6 := fst (attach_edge f n3 n1 s5)) in *.
  assert (Hmono : forall f' a b, joined s f' a b -> joined s6 f' a b).
  { intros f' a b H. apply M6, M5, M4. apply (joined_transfer s); [exact HE3 | exact H]. }
  assert (Hother : forall f', f' <> f -> nodes_of_face s6 f' = nodes_of_face s f').
  { intros f' Hne. rewrite F6, F5, F4, C7, B7, A7 by exact Hne. reflexivity. }
  split; [split; [exact Hed6 |] | exact Hother].
  intros f'. destruct (decide (f' = f)) as [->|Hne].
  - rewrite Hnil in A8. unfold face_ok. rewrite F6, F5, F4, C8, B6, A6.
    destruct (decide (f < length (faceH s))%nat) as [Hf|Hf]; [| left; reflexivity].
    rewrite B8, A6, A8. rewrite !decide_True by exact Hf.
    right. exists n1, n2, n3.
    split; [reflexivity |]. split; [apply M6, M5, J4 |]. split; [apply M6, J5 | exact J6].
  - destruct (Hfa f') as [H | (a & b & c & H & J1 & J2 & J3)].
    + left. rewrite Hother by exact Hne. exact H.
    + right. exists a, b, c. rewrite Hother by exact Hne. auto.
Qed.

Lemma set_face_topology nodes f s :
  topology_ok s -> nodes_of_face s f = [] ->
  topology_ok (fst (set_face nodes f s))
  /\ (forall f', f' <> f -> nodes_of_face (fst (set_face nodes f s)) f' = nodes_of_face s f').
Proof.
  intros Hok Hnil.
  destruct (set_face_cases nodes f s) as [-> | (n1 & n2 & n3 & H1 & H2 & H3 & ->)].
  - cbn [fst]. auto.
  - cbn [fst]. destruct Hok as [Hed Hfa].
    apply face_linked_topology; [split; assumption | exact Hnil | | |];
      eapply (ok_lists s Hed); eassumption.
Qed.

(** [set_faces] over faces that are distinct and not linked yet. *)
Lemma set_faces_topology nodes faces : forall s,
  topology_ok s -> NoDup faces ->
  (forall f, f ∈ faces -> nodes_of_face s f = []) ->
  topology_ok (fst (set_faces nodes faces s))
  /\ (forall f', f' ∉ faces ->
        nodes_of_face (fst (set_faces nodes faces s)) f' = nodes_of_face s f').
Proof.
  unfold set_faces. induction faces as [|f faces IH]; intros s Hok Hnd Hnil.
  - simpl. auto.
  - rewrite for_each_cons. apply NoDup_cons in Hnd as [Hnotin Hnd].
    destruct (set_face_topology nodes f s Hok (Hnil f (list_elem_of_here _ _))) as [Hok1 Hother].
    destruct (snd (set_face nodes f s)) as [e|[]].
    + cbn [fst]. split; [exact Hok1 |]. intros f' Hf'. apply Hother.
      intros ->. apply Hf'. left.
    + destruct (IH (fst (set_face nodes f s)) Hok1 Hnd) as [Hok2 Hother2].
      * intros f' Hf'. rewrite Hother; [apply Hnil; right; exact Hf' |].
        intros ->. contradiction.
      * split; [exact Hok2 |]. intros f' Hf'.
        rewrite Hother2 by (intros H; apply Hf'; right; exact H).
        apply Hother. intros ->. apply Hf'. left.
Qed.

Lemma topology_set_Faces l s : topology_ok s -> topology_ok (upd_grid (set_Faces l) s).
Proof.
  intros [Hed Hfa]. apply (topology_same_links s); [split; assumption | | |].
  - split; reflexivity.
  - apply (ok_lists s Hed).
  - apply (ok_store s Hed).
Qed.

(** The second loop of [read_tecplot] over fresh faces. *)
Lemma link_zones_topology (l : list (list handle * handle)) : forall s,
  topology_ok s -> NoDup (concat (map fst l)) ->
  (forall f, f ∈ concat (map fst l) -> nodes_of_face s f = []) ->
  topology_ok (fst (for_each l (fun fn =>
    set_faces (snd fn) (fst fn) ;;
    modify (upd_grid (fun g => set_Faces (Faces g ++ fst fn) g))) s)).
Proof.
  induction l as [|[fs r] l IH]; intros s Hok Hnd Hnil.
  - exact Hok.
  - rewrite for_each_cons. cbn [map concat fst snd] in Hnd, Hnil.
    apply NoDup_app in Hnd as (Hnd1 & Hdisj & Hnd2).
    destruct (set_faces_topology r fs s Hok Hnd1) as [Hok1 Hother].
    { intros f Hf. apply Hnil, elem_of_app. left. exact Hf. }
    rewrite bind_run. cbn [fst snd].
    destruct (snd (set_faces r fs s)) as [e|[]]; cbn [fst snd modify]; [exact Hok1 |].
    apply IH.
    + apply (topology_set_Faces _ _ Hok1).
    + exact Hnd2.
    + intros f Hf. change (nodes_of_face (fst (set_faces r fs s)) f = []).
      rewrite Hother; [apply Hnil, elem_of_app; right; exact Hf |].
      intros Hin. apply (Hdisj f Hin Hf).
Qed.

Lemma topology_log_open name mode s : topology_ok s -> topology_ok (log_open name mode s).
Proof.
  intros [Hed Hfa]. apply (topology_same_links s); [split; assumption | | |].
  - split; reflexivity.
  - apply (ok_lists s Hed).
  - apply (ok_store s Hed).
Qed.

(** A completed [read_tecplot] keeps the topology invariant. *)
Lemma read_tecplot_topology filename algorithm s s' :
  topology_ok s -> read_tecplot filename algorithm s = (s', inr tt) -> topology_ok s'.
Proof.
  intros Hok Hrun. unfold read_tecplot in Hrun.
  apply bind_inr in Hrun as (s0 & [] & Hchk & Hrun).
  assert (s0 = s) as -> by (destruct (bool_decide _); [injection Hchk as <-; reflexivity | discriminate]).
  clear Hchk.
  apply bind_inr in Hrun as (sa & text & Hopen & Hrun).
  apply open_r_inr in Hopen as [-> _]. cbv zeta in Hrun.
  apply bind_inr in Hrun as (sa & [fc ix] & Hscan & Hrun).
  pose proof (scan_elements_pure (readlines text) 0 [] [] (log_open filename "r" s)) as Hpure.
  rewrite Hscan in Hpure. cbn [fst] in Hpure. subst sa. clear Hscan.
  apply bind_inr in Hrun as (sb & [nodes faces] & Hzones & Hrun). cbn [fst snd] in Hrun.
  apply bind_inr in Hrun as (sc & [] & Hnodes & Hrun).
  apply bind_inr in Hrun as (sd & [] & Hlink & Hinit).
  assert (s' = fst (init_ids sd)) as -> by (rewrite Hinit; reflexivity). clear Hinit.
  pose proof Hzones as Hspec.
  apply read_zones_spec in Hspec as (_ & _ & _ & _ & Hfaces & Hlen & _).
  apply read_zones_topology in Hzones as (Hokb & Hslb & k & Hk);
    [| apply topology_log_open, Hok].
  change (faceH (log_open filename "r" s)) with (faceH s) in Hk. simpl in Hk.
  destruct (set_nodes_topology nodes algorithm sb Hokb) as [Hokc Hslc].
  rewrite Hnodes in Hokc, Hslc. cbn [fst] in Hokc, Hslc.
  apply init_ids_topology.
  assert (Hfst : map fst (zip faces nodes) = faces).
  { apply fst_zip. rewrite Hlen, Hfaces. simpl. rewrite length_map, length_seq. lia. }
  pose proof (link_zones_topology (zip faces nodes) sc Hokc) as Hd.
  rewrite Hlink, Hfst, Hk in Hd. apply Hd.
  - apply NoDup_seq.
  - intros f Hf. apply list_elem_of_In, in_seq in Hf.
    rewrite (sl_nodes_of_face _ _ Hslc), (sl_nodes_of_face _ _ Hslb).
    unfold nodes_of_face. change (faceH (log_open filename "r" s)) with (faceH s).
    rewrite lookup_ge_None_2 by lia. reflexivity.
Qed.

(** ** Grids built by merging *)

Lemma merged_topology fs s : merged fs s -> topology_ok s.
Proof.
  induction 1 as [|s filename algorithm s' _ IH Hrun].
  - apply topology_init.
  - eapply read_tecplot_topology; eassumption.
Qed.

Lemma filter_none (P : handle -> Prop) `{!forall x, Decision (P x)} l :
  (forall x, x ∈ l -> ~ P x) -> filter P l = [].
Proof.
  induction l as [|x l IH]; intros Hnot; [reflexivity |].
  rewrite filter_cons_False by (apply Hnot; left).
  apply IH. intros y Hy. apply Hnot. right. exact Hy.
Qed.

Lemma filter_unique (P : handle -> Prop) `{!forall x, Decision (P x)} (e : handle) l :
  NoDup l -> e ∈ l -> (forall x, x ∈ l -> P x <-> x = e) -> filter P l = [e].
Proof.
  induction l as [|x l IH]; intros Hnd He HP; [inversion He |].
  apply NoDup_cons in Hnd as [Hx Hnd].
  destruct (decide (x = e)) as [->|Hne].
  - rewrite filter_cons_True by (apply HP; [left | reflexivity]).
    f_equal. apply filter_none. intros y Hy HPy.
    apply HP in HPy; [| right; exact Hy]. subst y. contradiction.
  - rewrite filter_cons_False by (intros HPx; apply HP in HPx; [contradiction | left]).
    apply IH; [exact Hnd | | ].
    + apply elem_of_cons in He as [->|He]; [contradiction | exact He].
    + intros y Hy. apply HP. right. exact Hy.
Qed.

(** C1. In a grid built by merging, whenever two different nodes are nodes
    of one face, exactly one entry of [grid.Edges] is an edge between them,
    and the face is one of that edge's faces: the pair is never given a
    second edge, whichever faces and zones use it. *)
Theorem edge_uniqueness (fs : gmap string string) (s : state) :
  merged fs s ->
  forall f a b,
    a ∈ nodes_of_face s f -> b ∈ nodes_of_face s f -> a <> b ->
    exists e,
      filter (fun e' => connects s e' a b) (Edges (grid s)) = [e]
      /\ f ∈ faces_of_edge s e.
Proof.
  intros Hm f a b Ha Hb Hab.
  destruct (merged_topology fs s Hm) as [Hed Hfa].
  assert (Hj : joined s f a b \/ joined s f b a).
  { destruct (Hfa f) as [Hnil | (x & y & z & Hn & J1 & J2 & J3)].
    - rewrite Hnil in Ha. inversion Ha.
    - rewrite Hn in Ha, Hb. apply list_elem_of_In in Ha, Hb. simpl in Ha, Hb.
      destruct Ha as [<-|[<-|[<-|[]]]], Hb as [<-|[<-|[<-|[]]]]; auto; congruence. }
  assert (He : exists e, connects s e a b /\ f ∈ faces_of_edge s e).
  { destruct Hj as [[Heq|(e & _ & Hc & Hf)] | [Heq|(e & _ & Hc & Hf)]]; try congruence.
    - exists e. auto.
    - exists e. split; [| exact Hf]. destruct Hc as [Hc|Hc]; [right | left]; exact Hc. }
  destruct He as (e & Hc & Hf). exists e. split; [| exact Hf].
  rewrite (ok_Edges s Hed). apply filter_unique.
  - apply NoDup_seq.
  - apply list_elem_of_In, in_seq. pose proof (connects_allocated s e a b Hc). lia.
  - intros x _. split; [intros Hx; apply (ok_unique s Hed x e a b Hx Hc) | intros ->; exact Hc].
Qed.

End Tecplot.

(** ** The reader and the writer on sample files

    Floats are instantiated by integers, read and printed in decimal. *)

(** C3. Zone A and zone B, read into an empty grid with any of the three
    algorithms, give 4 nodes with the coordinates (0,0), (1,0), (0,1), (1,1),
    5 edges and 2 faces; the nodes (1,0) and (0,1) of zone B are the objects
    of zone A, and the one edge between them carries both faces. *)
Theorem two_zones_sharing_an_edge :
  Forall (fun algorithm =>
    let r := read_tecplot Z Z.eqb Z.ltb dec_int dec_int "in.dat" algorithm
               (init_state Z {["in.dat" := two_zones]}) in
    let s := fst r in
    snd r = inr tt
    /\ length (Nodes (grid Z s)) = 4%nat
    /\ length (Edges (grid Z s)) = 5%nat
    /\ length (Faces (grid Z s)) = 2%nat
    /\ (forall xy, xy ∈ omap (fun n => (fun N => (node_x Z N, node_y Z N)) <$> nodeH Z s !! n)
                              (Nodes (grid Z s))
                   <-> xy ∈ [(0, 0); (1, 0); (0, 1); (1, 1)])
    /\ map (zone_nodes Z s) (Zones (grid Z s)) = [[0; 1; 2]; [1; 2; 5]]%nat
    /\ filter (fun e => nodes_of_edge Z s e = [1; 2]%nat \/ nodes_of_edge Z s e = [2; 1]%nat)
              (Edges (grid Z s)) = [1%nat]
    /\ (edge_faces <$> edgeH Z s !! 1%nat) = Some [0; 1]%nat)
    known_algorithms.
Proof.
  unfold known_algorithms.
  apply List.Forall_cons;
    [| apply List.Forall_cons; [| apply List.Forall_cons; [| apply List.Forall_nil]]].
  all: vm_compute; repeat split; try reflexivity.
  all: intros H; apply list_elem_of_In in H; apply list_elem_of_In; simpl in *; tauto.
Qed.

Lemma merged_output_needs_two_zones_witness :
  (length (Zones (grid Z (init_state Z ∅))) < 2)%nat
  /\ print_tecplot Z pretty "out.dat" true (init_state Z ∅) =
       (upd_files Z (fun fs => <["out.dat" := title_lines]> fs)
          (log_open Z "out.dat" "w" (init_state Z ∅)),
        inl (AssertionError (nl +:+ "Grid is not multizone." +:+ nl))).
Proof.
  split; [simpl; lia |].
  apply (merged_output_needs_two_zones Z pretty "out.dat" (init_state Z ∅)).
  simpl; lia.
Defined.

(** C6, as stated, fails: the failed call empties the target file and leaves
    the two title lines in it. *)
Lemma merged_output_writes_title_first :
  let s := init_state Z {["out.dat" := "kept"]} in
  let r := print_tecplot Z pretty "out.dat" true s in
  (length (Zones (grid Z s)) < 2)%nat
  /\ snd r = inl (AssertionError (nl +:+ "Grid is not multizone." +:+ nl))
  /\ files Z (fst r) !! "out.dat" = Some title_lines
  /\ files Z (fst r) !! "out.dat" <> files Z s !! "out.dat".
Proof.
  vm_compute. repeat split; [lia | discriminate].
Qed.

(** A zone of three nodes held in list 0, with the records (1,2,3) and
    (1,2,4) parsed and not yet linked. *)
Lemma bad_record_raises_witness :
  let s := mkState Z [mkNode Z 0 0 [] [] None; mkNode Z 1 0 [] [] None; mkNode Z 0 1 [] [] None]
             [mkFace [1; 2; 3] [] [] None; mkFace [1; 2; 4] [] [] None] [] []
             [[0; 1; 2]%nat] (mkGrid [0; 1; 2]%nat [] [] []) ∅ [] in
  (exists f, f ∈ [0; 1]%nat /\ bad_record Z s 0%nat f)
  /\ snd (set_faces Z 0%nat [0; 1]%nat s) = inl IndexError.
Proof.
  intros s.
  assert (H : exists f, f ∈ [0; 1]%nat /\ bad_record Z s 0%nat f).
  { exists 1%nat. split; [apply list_elem_of_In; simpl; tauto |].
    right. exists 2%nat, 4. simpl. repeat split; lia. }
  split; [exact H | exact (bad_record_raises Z 0%nat [0; 1]%nat s H)].
Defined.

Lemma abort_keeps_earlier_faces_witness :
  let s := mkState Z [mkNode Z 0 0 [] [] None; mkNode Z 1 0 [] [] None; mkNode Z 0 1 [] [] None]
             [mkFace [1; 2; 3] [] [] None; mkFace [1; 2; 4] [] [] None] [] []
             [[0; 1; 2]%nat] (mkGrid [0; 1; 2]%nat [] [] []) ∅ [] in
  snd (set_faces Z 0%nat [0%nat] s) = inr tt
  /\ bad_record Z s 0%nat 1%nat
  /\ set_faces Z 0%nat ([0%nat] ++ 1%nat :: []) s
     = (fst (set_faces Z 0%nat [0%nat] s), inl IndexError).
Proof.
  intros s.
  assert (H1 : snd (set_faces Z 0%nat [0%nat] s) = inr tt) by (vm_compute; reflexivity).
  assert (H2 : bad_record Z s 0%nat 1%nat).
  { right. exists 2%nat, 4. simpl. repeat split; lia. }
  split; [exact H1 |]. split; [exact H2 |].
  exact (abort_keeps_earlier_faces Z 0%nat [0%nat] 1%nat [] s H1 H2).
Defined.

(** C4, as stated, fails: reading a zone whose second record names a fourth
    node ends in IndexError with the zone, its three nodes and the three
    edges of the first record in the grid. *)
Lemma failed_merge_is_committed :
  let s := init_state Z {["in.dat" := index_too_large]} in
  let r := read_tecplot Z Z.eqb Z.ltb dec_int dec_int "in.dat" "n_square" s in
  snd r = inl IndexError
  /\ grid Z (fst r) = mkGrid [0; 1; 2]%nat [0; 1; 2]%nat [] [0%nat]
  /\ grid Z (fst r) <> grid Z s.
Proof.
  vm_compute. repeat split. discriminate.
Qed.

(** C5, as stated, fails: the record (0,1,2) is outside [1, 3] and is
    accepted; index 0 selects the last node of the zone. *)
Lemma index_zero_is_accepted :
  let s := init_state Z {["in.dat" := index_zero]} in
  let r := read_tecplot Z Z.eqb Z.ltb dec_int dec_int "in.dat" "n_square" s in
  snd r = inr tt
  /\ ids_of_face Z (fst r) 0%nat = [0; 1; 2]
  /\ zone_nodes Z (fst r) 0%nat = [0; 1; 2]%nat
  /\ nodes_of_face Z (fst r) 0%nat = [2; 0; 1]%nat.
Proof.
  vm_compute. repeat split.
Qed.

Lemma unknown_algorithm_rejected_witness :
  (("linear" ∉ known_algorithms)
   /\ read_tecplot Z Z.eqb Z.ltb dec_int dec_int "in.dat" "linear"
        (init_state Z {["in.dat" := two_zones]})
      = (init_state Z {["in.dat" := two_zones]}, inl (Exception "Wrong name for algorithm")))
  /\ (("n_square" ∈ known_algorithms)
      /\ forall msg, snd (read_tecplot Z Z.eqb Z.ltb dec_int dec_int "missing.dat" "n_square"
                            (init_state Z {["in.dat" := two_zones]}))
                     <> inl (Exception msg)).
Proof.
  assert (H1 : "linear" ∉ known_algorithms).
  { intros H. apply list_elem_of_In in H. simpl in H.
    destruct H as [H|[H|[H|[]]]]; discriminate H. }
  assert (H2 : "n_square" ∈ known_algorithms) by (apply list_elem_of_In; simpl; tauto).
  split; (split; [assumption |]).
  - exact (proj1 (unknown_algorithm_rejected Z Z.eqb Z.ltb dec_int dec_int "in.dat" "linear"
                    (init_state Z {["in.dat" := two_zones]})) H1).
  - exact (proj2 (unknown_algorithm_rejected Z Z.eqb Z.ltb dec_int dec_int "missing.dat"
                    "n_square" (init_state Z {["in.dat" := two_zones]})) H2).
Defined.

(** A block with four x values and three y values: three nodes. *)
Lemma parce_node_count_witness :
  let l0 := "0 1 0 7 " +:+ nl in
  let l1 := "0 0 1 " +:+ nl in
  let lines := [l0; l1; "1 2 3 " +:+ nl] in
  let s := init_state Z ∅ in
  lines !! 0%nat = Some l0
  /\ lines !! 1%nat = Some l1
  /\ (forall s' nodes faces,
        parce_nodes_and_faces Z dec_int dec_int lines s = (s', inr (nodes, faces)) ->
        length (nodeH Z s') = (length (nodeH Z s) + 3)%nat
        /\ list_at Z s' nodes = seq (length (nodeH Z s)) 3)
  /\ (Forall (fun t => is_Some (dec_int t)) (tokens l0) ->
      Forall (fun t => is_Some (dec_int t)) (tokens l1) ->
      Forall (fun line => Forall (fun t => is_Some (dec_int t)) (tokens line)) (drop 2 lines) ->
      exists s' nodes faces,
        parce_nodes_and_faces Z dec_int dec_int lines s = (s', inr (nodes, faces))).
Proof.
  intros l0 l1 lines s.
  split; [reflexivity |]. split; [reflexivity |].
  exact (parce_node_count Z dec_int dec_int lines l0 l1 s eq_refl eq_refl).
Defined.

(** A face with the nodes 0, 1, 2 printed against the enumeration 0, 1, 2. *)
Lemma connectivity_list_lines_witness :
  let s := mkState Z [mkNode Z 0 0 [] [0%nat] None; mkNode Z 1 0 [] [0%nat] None;
                      mkNode Z 0 1 [] [0%nat] None]
             [mkFace [1; 2; 3] [0; 1; 2]%nat [] None] [] [] []
             (mkGrid [0; 1; 2]%nat [] [0%nat] []) ∅ [] in
  (forall face node, face ∈ [0%nat] -> node ∈ nodes_of_face Z s face -> node ∈ [0; 1; 2]%nat)
  /\ exists lines : list string,
       Forall2 (face_line Z s [0; 1; 2]%nat) [0%nat] lines
       /\ snd (print_connectivity_list Z "out.dat" [0; 1; 2]%nat [0%nat] s) = inr tt
       /\ files Z (fst (print_connectivity_list Z "out.dat" [0; 1; 2]%nat [0%nat] s)) !! "out.dat"
          = Some (default "" (files Z s !! "out.dat") +:+ join lines).
Proof.
  intros s.
  assert (H : forall face node, face ∈ [0%nat] -> node ∈ nodes_of_face Z s face ->
                                node ∈ [0; 1; 2]%nat).
  { intros face node Hf Hn. apply list_elem_of_singleton in Hf. subst face. exact Hn. }
  split; [exact H |].
  exact (connectivity_list_lines Z "out.dat" [0; 1; 2]%nat [0%nat] s H).
Defined.

Lemma faces_follow_zones_witness :
  let s := init_state Z {["in.dat" := two_zones]} in
  let s' := fst (read_tecplot Z Z.eqb Z.ltb dec_int dec_int "in.dat" "dichotomy_2_sided" s) in
  Forall (fun z => (z < length (zoneH Z s))%nat) (Zones (grid Z s))
  /\ Faces (grid Z s) = concat (map (zone_faces Z s) (Zones (grid Z s)))
  /\ read_tecplot Z Z.eqb Z.ltb dec_int dec_int "in.dat" "dichotomy_2_sided" s = (s', inr tt)
  /\ Faces (grid Z s') = concat (map (zone_faces Z s') (Zones (grid Z s')))
  /\ exists text fc ix,
       files Z s !! "in.dat" = Some text
       /\ snd (scan_elements Z dec_int 0 (readlines text) [] [] s) = inr (fc, ix)
       /\ Forall2 (zone_of_lines Z dec_int s' (readlines text))
                  (drop (length (Zones (grid Z s))) (Zones (grid Z s'))) (zip fc ix).
Proof.
  intros s s'.
  assert (H1 : Forall (fun z => (z < length (zoneH Z s))%nat) (Zones (grid Z s)))
    by apply Forall_nil_2.
  assert (H2 : Faces (grid Z s) = concat (map (zone_faces Z s) (Zones (grid Z s))))
    by reflexivity.
  assert (H3 : read_tecplot Z Z.eqb Z.ltb dec_int dec_int "in.dat" "dichotomy_2_sided" s
               = (s', inr tt)) by (vm_compute; reflexivity).
  split; [exact H1 |]. split; [exact H2 |]. split; [exact H3 |].
  exact (faces_follow_zones Z Z.eqb Z.ltb dec_int dec_int "in.dat" "dichotomy_2_sided"
           s s' H1 H2 H3).
Defined.

(** Three nodes with different coordinates, held in list 0, and an empty
    store. *)
Lemma strategies_agree_witness :
  let s := mkState Z [mkNode Z 0 0 [] [] None; mkNode Z 1 0 [] [] None; mkNode Z 0 1 [] [] None]
             [] [] [] [[0; 1; 2]%nat] (mkGrid [] [] [] []) ∅ [] in
  Nodes (grid Z s) = []
  /\ (forall j k a b, j <> k -> list_at Z s 0%nat !! j = Some a ->
                      list_at Z s 0%nat !! k = Some b -> same_xy Z Z.eqb s a b = false)
  /\ ("n_square" ∈ known_algorithms)
  /\ ("dichotomy_2_sided" ∈ known_algorithms)
  /\ snd (set_nodes Z Z.eqb Z.ltb [0%nat] "n_square" s) = inr tt
  /\ Nodes (grid Z (fst (set_nodes Z Z.eqb Z.ltb [0%nat] "n_square" s)))
     ≡ₚ Nodes (grid Z (fst (set_nodes Z Z.eqb Z.ltb [0%nat] "dichotomy_2_sided" s)))
  /\ forall xy, xy ∈ canonical_xy Z (fst (set_nodes Z Z.eqb Z.ltb [0%nat] "n_square" s))
                <-> xy ∈ canonical_xy Z
                          (fst (set_nodes Z Z.eqb Z.ltb [0%nat] "dichotomy_2_sided" s)).
Proof.
  intros s.
  assert (H1 : Nodes (grid Z s) = []) by reflexivity.
  assert (H2 : forall j k a b, j <> k -> list_at Z s 0%nat !! j = Some a ->
                 list_at Z s 0%nat !! k = Some b -> same_xy Z Z.eqb s a b = false).
  { intros j k a b Hjk Ha Hb.
    destruct j as [|[|[|j]]]; destruct k as [|[|[|k]]];
      try (exfalso; apply Hjk; reflexivity); try discriminate Ha; try discriminate Hb;
      injection Ha as <-; injection Hb as <-; reflexivity. }
  assert (H3 : "n_square" ∈ known_algorithms) by (apply list_elem_of_In; simpl; tauto).
  assert (H4 : "dichotomy_2_sided" ∈ known_algorithms) by (apply list_elem_of_In; simpl; tauto).
  split; [exact H1 |]. split; [exact H2 |]. split; [exact H3 |]. split; [exact H4 |].
  exact (strategies_agree Z Z.eqb Z.ltb 0%nat s H1 H2 "n_square" "dichotomy_2_sided" H3 H4).
Defined.

(** The two zones sharing an edge: the nodes 1 and 2 of the second face. *)
Lemma edge_uniqueness_witness :
  let fs : gmap string string := {["in.dat" := two_zones]} in
  let s := fst (read_tecplot Z Z.eqb Z.ltb dec_int dec_int "in.dat" "n_square"
                  (init_state Z fs)) in
  merged Z Z.eqb Z.ltb dec_int dec_int fs s
  /\ (1%nat ∈ nodes_of_face Z s 1%nat)
  /\ (2%nat ∈ nodes_of_face Z s 1%nat)
  /\ 1%nat <> 2%nat
  /\ exists e,
       @filter _ _ _ (fun e' => connects Z s e' 1%nat 2%nat)
               (fun e' => connects_dec Z s e' 1%nat 2%nat) (Edges (grid Z s)) = [e]
       /\ 1%nat ∈ faces_of_edge Z s e.
Proof.
  intros fs s.
  assert (H0 : merged Z Z.eqb Z.ltb dec_int dec_int fs s).
  { apply (merged_read Z Z.eqb Z.ltb dec_int dec_int fs (init_state Z fs)
             "in.dat" "n_square" s (merged_new Z Z.eqb Z.ltb dec_int dec_int fs)).
    vm_compute. reflexivity. }
  assert (H1 : 1%nat ∈ nodes_of_face Z s 1%nat) by (vm_compute; left).
  assert (H2 : 2%nat ∈ nodes_of_face Z s 1%nat) by (vm_compute; right; left).
  assert (H3 : 1%nat <> 2%nat) by discriminate.
  split; [exact H0 |]. split; [exact H1 |]. split; [exact H2 |]. split; [exact H3 |].
  exact (edge_uniqueness Z Z.eqb Z.ltb dec_int dec_int fs s H0 1%nat 1%nat 2%nat H1 H2 H3).
Defined.

(** ** The built-ins on sample texts *)

Example tokens_of_a_face_line : tokens ("1 2 3 " +:+ nl) = ["1"; "2"; "3"].
Proof. reflexivity. Qed.

Example tokens_without_trailing_blank : tokens "1 2 3" = ["1"; "2"].
Proof. reflexivity. Qed.

Example readlines_keeps_line_ends :
  readlines ("ab" +:+ nl +:+ nl +:+ "c") = ["ab" +:+ nl; nl; "c"].
Proof. reflexivity. Qed.

Example number_of_faces_of_a_header :
  number_of_faces Z dec_int ("ELEMENTS = 12" +:+ nl) (init_state Z ∅)
  = (init_state Z ∅, inr 12).
Proof. reflexivity. Qed.

Example index_from_the_end : py_index [10; 20; 30] (-1) = Some 30.
Proof. reflexivity. Qed.

Example index_off_the_front : py_index [10; 20; 30] (-4) = None.
Proof. reflexivity. Qed.

Example slice_of_a_block : py_slice ["a"; "b"; "c"; "d"; "e"] 1 (1 + 2 + 1) = ["b"; "c"; "d"].
Proof. reflexivity. Qed.

(** The merged output of the two zones sharing an edge. *)
Example merged_output_of_two_zones :
  let s := fst (read_tecplot Z Z.eqb Z.ltb dec_int dec_int "in.dat" "n_square"
                  (init_state Z {["in.dat" := two_zones]})) in
  files Z (fst (print_tecplot Z pretty "out.dat" true s)) !! "out.dat"
  = Some (title_lines +:+
          zone_block "ZONE 1" "4" "2" "0 1 0 1 " "0 0 1 1 " ["1 2 3 "; "2 3 4 "]).
Proof. vm_compute. reflexivity. Qed.
